(** * PicoClaw long-term memory (package [memory])

    A shallow embedding of the Go package [pkg/memory]: the embedding
    providers, the SQLite-backed [MemoryStore], the [AutoCapture]
    heuristics and the two tool adapters, followed by the properties the
    specification states about them.

    Conventions.
    - A Go [string] is a sequence of bytes: it is a [string] here, read as
      [list Z] (values 0..255) by [bytes]; [len(s)] is [String.length].
    - A [rune] is a [Z]; ranging over a string decodes UTF-8 the way
      [utf8.DecodeRuneInString] does (an invalid byte is one [RuneError]).
    - [int] is [Z]; [uint64] is [Z] reduced modulo [2^64].
    - [float32] is a type [F] with the operations of the class [Float32];
      the instance [b32] is IEEE-754 binary32 (Stdlib's [SpecFloat] at
      precision 24), the instance [Rexact] is exact real arithmetic.
    - The database is the list of its rows; [uuid.New()] and [time.Now()]
      are arguments of [Store].  The database is taken to work: a
      statement fails only for the reason SQL gives (a primary key that
      is taken).
    - A product and a sum are rounded one after the other (no fused
      multiply-add). *)

From Stdlib Require Import ZArith List String Ascii Bool Lia Reals Lra Psatz.
From Stdlib Require Import SpecFloat DecimalString Sorted.
From stdpp Require Import base list strings gmap.
Import ListNotations.

(* ================================================================= *)
(** * Go strings: bytes, UTF-8, and the [strings] functions used      *)
(* ================================================================= *)

Module GoStr.
Local Open Scope Z_scope.

Definition bytes (s : string) : list Z :=
  map (fun c => Z.of_N (N_of_ascii c)) (list_ascii_of_string s).

Definition of_bytes (l : list Z) : string :=
  string_of_list_ascii (map (fun b => ascii_of_N (Z.to_N b)) l).

Definition RuneError : Z := 65533.   (* U+FFFD *)

Definition between (lo hi b : Z) : bool := (lo <=? b) && (b <=? hi).
Definition cont (b : Z) : bool := between 128 191 b.

(** [utf8.DecodeRuneInString]: the first rune of [bs] and its width in
    bytes.  Anything that is not a well-formed, shortest-form encoding of
    a scalar value yields [(RuneError, 1)]. *)
Definition DecodeRune (bs : list Z) : Z * nat :=
  match bs with
  | [] => (RuneError, 0%nat)
  | b0 :: t0 =>
    if b0 <? 128 then (b0, 1%nat)
    else if between 194 223 b0 then
      match t0 with
      | b1 :: _ =>
        if cont b1 then ((b0 - 192) * 64 + (b1 - 128), 2%nat)
        else (RuneError, 1%nat)
      | _ => (RuneError, 1%nat)
      end
    else if between 224 239 b0 then
      match t0 with
      | b1 :: b2 :: _ =>
        if between (if b0 =? 224 then 160 else 128)
                   (if b0 =? 237 then 159 else 191) b1 && cont b2
        then ((b0 - 224) * 4096 + (b1 - 128) * 64 + (b2 - 128), 3%nat)
        else (RuneError, 1%nat)
      | _ => (RuneError, 1%nat)
      end
    else if between 240 244 b0 then
      match t0 with
      | b1 :: b2 :: b3 :: _ =>
        if between (if b0 =? 240 then 144 else 128)
                   (if b0 =? 244 then 143 else 191) b1 && cont b2 && cont b3
        then ((b0 - 240) * 262144 + (b1 - 128) * 4096
              + (b2 - 128) * 64 + (b3 - 128), 4%nat)
        else (RuneError, 1%nat)
      | _ => (RuneError, 1%nat)
      end
    else (RuneError, 1%nat)
  end.

(** [for _, r := range s]: decode at the current position, then step
    over the bytes the rune took ([skip] counts those still to pass). *)
Fixpoint runes_from (skip : nat) (bs : list Z) : list Z :=
  match bs with
  | [] => []
  | _ :: t =>
    match skip with
    | S k => runes_from k t
    | O => let (r, w) := DecodeRune bs in r :: runes_from (w - 1) t
    end
  end.

Definition runes (s : string) : list Z := runes_from 0 (bytes s).

(** [utf8.RuneCountInString]. *)
Definition RuneCount (s : string) : nat := length (runes s).

(** [utf8.AppendRune]: surrogates and out-of-range values are written as
    [RuneError]. *)
Definition EncodeRune (r : Z) : list Z :=
  if (r <? 0) || (1114111 <? r) || between 55296 57343 r then [239; 191; 189]
  else if r <=? 127 then [r]
  else if r <=? 2047 then [192 + r / 64; 128 + r mod 64]
  else if r <=? 65535 then
    [224 + r / 4096; 128 + (r / 64) mod 64; 128 + r mod 64]
  else [240 + r / 262144; 128 + (r / 4096) mod 64;
        128 + (r / 64) mod 64; 128 + r mod 64].

(** The case tables of Go's [unicode] package are no part of this
    repository.  [lower_table] stands for [unicode.To(unicode.LowerCase, r)]
    on the runes above ASCII; what is used of it is that only U+0130 and
    U+212A have an ASCII lower case ('i' and 'k'). *)
Record CaseTable := {
  lower_table : Z -> Z;
  lower_table_high :
    forall r, 127 < r ->
      127 < lower_table r \/ lower_table r = 105 \/ lower_table r = 107
}.

Definition asciiLower (c : Z) : Z :=
  if between 65 90 c then c + 32 else c.

(** [unicode.ToLower]. *)
Definition unicode_ToLower (T : CaseTable) (r : Z) : Z :=
  if r <=? 127 then asciiLower r else lower_table T r.

(** [strings.ToLower]: bytewise on an all-ASCII string, otherwise
    [strings.Map(unicode.ToLower, s)], which re-encodes every rune (an
    invalid byte becomes the three bytes of U+FFFD) and drops a negative
    result. *)
Definition ToLower_bytes (T : CaseTable) (bs : list Z) : list Z :=
  if forallb (fun c => c <? 128) bs then map asciiLower bs
  else
    flat_map (fun r => let r' := unicode_ToLower T r in
                       if r' <? 0 then [] else EncodeRune r')
             (runes_from 0 bs).

Definition ToLower (T : CaseTable) (s : string) : string :=
  of_bytes (ToLower_bytes T (bytes s)).

(** [strings.HasPrefix] and [strings.Contains], on bytes. *)
Fixpoint has_prefix_bytes (p s : list Z) : bool :=
  match p, s with
  | [], _ => true
  | a :: p', b :: s' => (a =? b) && has_prefix_bytes p' s'
  | _ :: _, [] => false
  end.

Fixpoint contains_bytes (sub s : list Z) : bool :=
  has_prefix_bytes sub s
  || match s with
     | [] => false
     | _ :: s' => contains_bytes sub s'
     end.

Definition HasPrefix (s prefix : string) : bool :=
  has_prefix_bytes (bytes prefix) (bytes s).

Definition Contains (s substr : string) : bool :=
  contains_bytes (bytes substr) (bytes s).

(** [unicode.IsSpace]. *)
Definition IsSpace (r : Z) : bool :=
  between 9 13 r || (r =? 32) || (r =? 133) || (r =? 160) || (r =? 5760)
  || between 8192 8202 r || (r =? 8232) || (r =? 8233) || (r =? 8239)
  || (r =? 8287) || (r =? 12288).

(** [strings.Fields]: the maximal runs of bytes between white space.  A
    white-space rune above ASCII takes several bytes, all of them
    separators; [skip] steps over the bytes of the rune just decoded, as
    in [runes_from], and [keep] tells whether they belong to a field. *)
Fixpoint fields_from (skip : nat) (keep : bool) (cur : list Z) (bs : list Z)
  : list (list Z) :=
  let flush := match cur with [] => [] | _ => [rev cur] end in
  match bs with
  | [] => flush
  | b :: t =>
    match skip with
    | S k => fields_from k keep (if keep then b :: cur else cur) t
    | O =>
      let (r, w) := DecodeRune bs in
      if IsSpace r then flush ++ fields_from (w - 1) false [] t
      else fields_from (w - 1) true (b :: cur) t
    end
  end.

Definition Fields (s : string) : list string :=
  map of_bytes (fields_from 0 true [] (bytes s)).

(** [strings.TrimFunc(s, func(r) bool { return r < 'a' || r > 'z' })].
    A byte in ['a','z'] always decodes as itself, and no other rune lies
    in that range, so the trimmed string runs from the first such byte to
    the last. *)
Definition is_lower_letter (b : Z) : bool := between 97 122 b.

Fixpoint drop_while_not_letter (bs : list Z) : list Z :=
  match bs with
  | [] => []
  | b :: t => if is_lower_letter b then bs else drop_while_not_letter t
  end.

Definition trim_non_letters (s : string) : string :=
  of_bytes (rev (drop_while_not_letter (rev (drop_while_not_letter (bytes s))))).

End GoStr.

(* ================================================================= *)
(** * Regular expressions, as Go's [regexp] matches them             *)
(* ================================================================= *)

(** The package's patterns use literals, alternation, classes and
    repetition only, so a derivative matcher over runes covers them.
    [MatchString] reports a match anywhere in the text; [^...$] (no
    multi-line flag) has to take the whole text. *)
Module Regexp.
Local Open Scope Z_scope.
Import GoStr.

Inductive regex :=
| RNone                          (* matches nothing *)
| REps                           (* the empty string *)
| RChar (p : Z -> bool)          (* one rune of a class *)
| RCat (a b : regex)
| RAlt (a b : regex)
| RStar (a : regex).

Fixpoint nullable (r : regex) : bool :=
  match r with
  | RNone => false
  | REps => true
  | RChar _ => false
  | RCat a b => nullable a && nullable b
  | RAlt a b => nullable a || nullable b
  | RStar _ => true
  end.

Definition cat (a b : regex) : regex :=
  match a, b with
  | RNone, _ => RNone
  | _, RNone => RNone
  | REps, _ => b
  | _, _ => RCat a b
  end.

Definition alt (a b : regex) : regex :=
  match a, b with
  | RNone, _ => b
  | _, RNone => a
  | _, _ => RAlt a b
  end.

Fixpoint deriv (c : Z) (r : regex) : regex :=
  match r with
  | RNone => RNone
  | REps => RNone
  | RChar p => if p c then REps else RNone
  | RCat a b =>
    alt (cat (deriv c a) b) (if nullable a then deriv c b else RNone)
  | RAlt a b => alt (deriv c a) (deriv c b)
  | RStar a => cat (deriv c a) (RStar a)
  end.

(** The whole of [s] is in the language of [r]. *)
Fixpoint fullmatch (r : regex) (s : list Z) : bool :=
  match s with
  | [] => nullable r
  | c :: s' => fullmatch (deriv c r) s'
  end.

(** Some prefix of [s] is in the language of [r]. *)
Fixpoint prefixmatch (r : regex) (s : list Z) : bool :=
  nullable r
  || match s with
     | [] => false
     | c :: s' => prefixmatch (deriv c r) s'
     end.

(** Some substring of [s] is in the language of [r]. *)
Fixpoint search (r : regex) (s : list Z) : bool :=
  prefixmatch r s
  || match s with
     | [] => false
     | _ :: s' => search r s'
     end.

(** A compiled pattern: [anchored] stands for [^body$]. *)
Record Regexp := { anchored : bool; body : regex }.

Definition MatchString (re : Regexp) (s : string) : bool :=
  if anchored re then fullmatch (body re) (runes s)
  else search (body re) (runes s).

(** ** Building blocks *)

Definition chr (c : Z) : regex := RChar (Z.eqb c).

(** The runes [unicode.SimpleFold] links to [c], for the runes that occur
    in this package's patterns: an ASCII letter and its other case, with
    U+212A (Kelvin sign) for k and U+017F (long s) for s; and the pairs of
    the Czech letters used. *)
Definition fold_eq (c r : Z) : bool :=
  (r =? c)
  || (between 97 122 c && (r =? c - 32))
  || (between 65 90 c && (r =? c + 32))
  || (((c =? 107) || (c =? 75)) && (r =? 8490))
  || (((c =? 115) || (c =? 83)) && (r =? 383))
  || (((c =? 353) || (c =? 352)) && ((r =? 353) || (r =? 352)))
  || (((c =? 367) || (c =? 366)) && ((r =? 367) || (r =? 366)))
  || (((c =? 225) || (c =? 193)) && ((r =? 225) || (r =? 193))).

Definition chr_i (c : Z) : regex := RChar (fold_eq c).

Definition seq_of (rs : list regex) : regex := fold_right RCat REps rs.
Definition any_of (rs : list regex) : regex := fold_right RAlt RNone rs.

(** A literal, rune by rune; [lit_i] under the flag [(?i)]. *)
Definition lit (s : string) : regex := seq_of (map chr (runes s)).
Definition lit_i (s : string) : regex := seq_of (map chr_i (runes s)).

Definition plus (r : regex) : regex := RCat r (RStar r).        (* r+ *)
Definition rep (n : nat) (r : regex) : regex := seq_of (repeat r n).  (* r{n} *)
Definition at_least (n : nat) (r : regex) : regex := RCat (rep n r) (RStar r). (* r{n,} *)

Definition is_digit (r : Z) : bool := between 48 57 r.                 (* \d *)
Definition is_word (r : Z) : bool :=                                   (* \w *)
  is_digit r || between 65 90 r || between 97 122 r || (r =? 95).
Definition is_word_i (r : Z) : bool :=              (* \w under (?i): folded *)
  is_word r || (r =? 383) || (r =? 8490).
Definition is_space (r : Z) : bool :=                                  (* \s *)
  (r =? 9) || (r =? 10) || (r =? 12) || (r =? 13) || (r =? 32).
Definition is_hex_lower (r : Z) : bool := is_digit r || between 97 102 r. (* [0-9a-f] *)

Definition unanchored (r : regex) : Regexp := {| anchored := false; body := r |}.
Definition whole (r : regex) : Regexp := {| anchored := true; body := r |}.

End Regexp.

(* ================================================================= *)
(** * [float32]                                                       *)
(* ================================================================= *)

(** The operations the package performs on [float32] values. *)
Class Float32 (F : Type) := {
  f_of_Z : Z -> F;              (* float32(n), n an int *)
  f_add : F -> F -> F;
  f_mul : F -> F -> F;
  f_div : F -> F -> F;
  f_sqrt : F -> F;              (* float32(math.Sqrt(float64(x))) *)
  f_eqb : F -> F -> bool;       (* x == y *)
  f_ltb : F -> F -> bool;       (* x < y *)
  f_leb : F -> F -> bool;       (* x <= y *)
  f_finite : F -> bool;         (* neither NaN nor an infinity *)
  f_of_float64 : spec_float -> F;   (* float32(x), x a float64 *)
  f_format2 : F -> string       (* fmt's %.2f *)
}.

Section FloatDerived.
Context {F : Type} `{Float32 F}.

Definition f_zero : F := f_of_Z 0.
Definition f_one : F := f_of_Z 1.

(** A decimal constant [n/d] with [n], [d] small integers: the division
    rounds once, as the conversion of the constant does. *)
Definition f_lit (n d : Z) : F := f_div (f_of_Z n) (f_of_Z d).

Definition f_gtb (x y : F) : bool := f_ltb y x.   (* x > y *)
Definition f_geb (x y : F) : bool := f_leb y x.   (* x >= y *)

End FloatDerived.

(** ** IEEE-754 binary32 *)
Module B32.
Local Open Scope Z_scope.

Definition prec : Z := 24.
Definition emax : Z := 128.

(** Rounding a finite value of any precision to binary32 (the conversion
    [float32(x)] of a [float64]). *)
Definition round32 (x : spec_float) : spec_float :=
  match x with
  | S754_finite s m e => binary_round prec emax s m e
  | _ => x
  end.

Definition of_Z (n : Z) : spec_float := binary_normalize prec emax n 0 false.

(** [float32(math.Sqrt(float64(x)))]: the square root is taken in
    binary64 and rounded to binary32. *)
Definition sqrt32 (x : spec_float) : spec_float := round32 (SFsqrt 53 1024 x).

Definition finite (x : spec_float) : bool :=
  match x with
  | S754_nan | S754_infinity _ => false
  | _ => true
  end.

Definition digit_string (n : Z) : string :=
  DecimalString.NilZero.string_of_uint (N.to_uint (Z.to_N n)).

Definition two_digits (n : Z) : string :=
  if n <? 10 then ("0" ++ digit_string n)%string else digit_string n.

(** [%.2f]: the exact value times 100, rounded to the nearest integer
    (ties to even), printed with two decimals. *)
Definition hundredths (m : positive) (e : Z) : Z :=
  match e with
  | Zneg p =>
    let num := Zpos m * 100 in
    let den := 2 ^ Zpos p in
    let q := num / den in
    let r := num mod den in
    match 2 * r ?= den with
    | Lt => q
    | Gt => q + 1
    | Eq => if Z.even q then q else q + 1
    end
  | _ => Zpos m * 2 ^ e * 100
  end.

Definition format2 (x : spec_float) : string :=
  match x with
  | S754_nan => "NaN"
  | S754_infinity false => "+Inf"
  | S754_infinity true => "-Inf"
  | S754_zero s => ((if s then "-" else "") ++ "0.00")%string
  | S754_finite s m e =>
    let h := hundredths m e in
    ((if s then "-" else "") ++ digit_string (h / 100) ++ "."
     ++ two_digits (h mod 100))%string
  end.

End B32.

#[export] Instance b32 : Float32 spec_float := {
  f_of_Z := B32.of_Z;
  f_add := SFadd B32.prec B32.emax;
  f_mul := SFmul B32.prec B32.emax;
  f_div := SFdiv B32.prec B32.emax;
  f_sqrt := B32.sqrt32;
  f_eqb := SFeqb;
  f_ltb := SFltb;
  f_leb := SFleb;
  f_finite := B32.finite;
  f_of_float64 := B32.round32;
  f_format2 := B32.format2
}.

(** ** Exact arithmetic: the real numbers

    The same operations without rounding, overflow or NaN.  Comparisons
    are decided classically; printing is not modelled. *)
Module RealArith.

Definition eqb (x y : R) : bool := if Req_dec_T x y then true else false.
Definition ltb (x y : R) : bool := if Rlt_dec x y then true else false.
Definition leb (x y : R) : bool := if Rle_dec x y then true else false.

(** The value of a finite float; there is no real for NaN or an infinity
    (0 stands in). *)
Definition of_float (x : spec_float) : R :=
  match x with
  | S754_finite s m e => (IZR (cond_Zopp s (Zpos m)) * powerRZ 2 e)%R
  | _ => 0%R
  end.

End RealArith.

#[export] Instance Rexact : Float32 R := {|
  f_of_Z := IZR;
  f_add := Rplus;
  f_mul := Rmult;
  f_div := Rdiv;
  f_sqrt := sqrt;
  f_eqb := RealArith.eqb;
  f_ltb := RealArith.ltb;
  f_leb := RealArith.leb;
  f_finite := fun _ => true;
  f_of_float64 := RealArith.of_float;
  f_format2 := fun _ => EmptyString
|}.

(* ================================================================= *)
(** * Errors and results                                              *)
(* ================================================================= *)

(** A Go [error] by the way it is made.  [RuntimePanic] is no error value:
    it marks a call that does not return because the goroutine panics. *)
Inductive error :=
| ErrorText (msg : string)               (* a fixed text: fmt.Errorf("msg"), or the
                                            report of a library or of the outside *)
| Errorf (msg : string) (arg : string)   (* fmt.Errorf("msg: %s", arg) *)
| Wrapf (msg : string) (cause : error)   (* fmt.Errorf("msg: %w", err) *)
| RuntimePanic (what : string).

Inductive result (A : Type) :=
| Ok (a : A)
| Err (e : error).
Arguments Ok {A} a.
Arguments Err {A} e.

(** The specification's error taxonomy, read off the messages. *)
Definition is_EmbeddingFailure (e : error) : Prop :=
  exists cause, e = Wrapf "failed to generate embedding" cause
             \/ e = Wrapf "failed to generate query embedding" cause.
Definition is_ValidationError (e : error) : Prop :=
  exists id, e = Errorf "invalid memory ID format" id.
Definition is_NotFoundError (e : error) : Prop :=
  exists id, e = Errorf "memory not found" id.

(* ================================================================= *)
(** * Vectors (store.go)                                              *)
(* ================================================================= *)

Section Vectors.
Context {F : Type} `{Float32 F}.

(** [sum += x * x] over the vector, from zero. *)
Definition sum_squares (v : list F) : F :=
  fold_left (fun sum x => f_add sum (f_mul x x)) v f_zero.

(** [normalizeVector]. *)
Definition normalizeVector (v : list F) : list F :=
  let norm := f_sqrt (sum_squares v) in
  if f_eqb norm f_zero then v
  else map (fun x => f_div x norm) v.

(** The loop of [cosineSimilarity]: the three accumulators. *)
Definition cosine_sums (a b : list F) : F * F * F :=
  fold_left
    (fun acc xy =>
       let '(dotProduct, normA, normB) := acc in
       (f_add dotProduct (f_mul xy.1 xy.2),
        f_add normA (f_mul xy.1 xy.1),
        f_add normB (f_mul xy.2 xy.2)))
    (combine a b) (f_zero, f_zero, f_zero).

(** [cosineSimilarity]. *)
Definition cosineSimilarity (a b : list F) : F :=
  if negb (length a =? length b)%nat then f_zero
  else
    let '(dotProduct, normA, normB) := cosine_sums a b in
    if f_eqb normA f_zero || f_eqb normB f_zero then f_zero
    else f_div dotProduct (f_mul (f_sqrt normA) (f_sqrt normB)).

End Vectors.

(* ================================================================= *)
(** * Embedding providers (embeddings.go)                             *)
(* ================================================================= *)

(** What [os.Stat] answers: the file is there, it is not, or the call
    fails for another reason. *)
Inductive StatResult := StatOk | StatNotExist | StatFailed.

Definition stat_is (r expected : StatResult) : bool :=
  match r, expected with
  | StatOk, StatOk | StatNotExist, StatNotExist | StatFailed, StatFailed => true
  | _, _ => false
  end.

(** What the providers reach outside the process. *)
Record Env (F : Type) := {
  getenv : string -> string;                      (* os.Getenv *)
  user_home : string;                             (* os.UserHomeDir *)
  stat : string -> StatResult;                    (* os.Stat *)
  path_join : list string -> string;              (* filepath.Join *)
  path_dir : string -> string;                    (* filepath.Dir *)
  (** POST /v1/embeddings with key, model and input: the [embedding] of
      every element of the response's [data], or the error of the
      request, of a status other than 200, or of decoding the body. *)
  openai_embeddings : string -> string -> string -> result (list (list F));
  (** [exec.Command("python3", script, model, text).Output()] *)
  run_python : string -> string -> string -> result string;
  (** [json.Unmarshal] of a text into a [[]float32] *)
  json_floats : string -> result (list F)
}.
Arguments getenv {F} _ _.
Arguments user_home {F} _.
Arguments stat {F} _ _.
Arguments path_join {F} _ _.
Arguments path_dir {F} _ _.
Arguments openai_embeddings {F} _ _ _ _.
Arguments run_python {F} _ _ _ _.
Arguments json_floats {F} _ _.

(** The interface [EmbeddingProvider]. *)
Record EmbeddingProvider (F : Type) := {
  Embed : string -> result (list F);
  Dimensions : Z
}.
Arguments Embed {F} _ _.
Arguments Dimensions {F} _.

Section Embedders.
Context {F : Type} `{Float32 F}.
Variable T : GoStr.CaseTable.
Variable env : Env F.
Import GoStr.
Local Open Scope Z_scope.

(** ** OpenAIEmbedder *)

Record OpenAIEmbedder := { oa_apiKey : string; oa_model : string; oa_dims : Z }.

Definition NewOpenAIEmbedder (apiKey model : string) : result OpenAIEmbedder :=
  let apiKey := if String.eqb apiKey "" then getenv env "OPENAI_API_KEY" else apiKey in
  if String.eqb apiKey "" then Err (ErrorText "OpenAI API key not provided")
  else
    let model := if String.eqb model "" then "text-embedding-3-small"%string else model in
    let dims :=
      if String.eqb model "text-embedding-3-large" then 3072
      else if Contains model "ada" then 1536
      else 1536 in
    Ok {| oa_apiKey := apiKey; oa_model := model; oa_dims := dims |}.

Definition OpenAIEmbedder_Embed (e : OpenAIEmbedder) (text : string)
  : result (list F) :=
  match openai_embeddings env (oa_apiKey e) (oa_model e) text with
  | Err err => Err err
  | Ok [] => Err (ErrorText "no embedding returned")
  | Ok (embedding :: _) => Ok (normalizeVector embedding)
  end.

(** ** LocalEmbedder *)

Record LocalEmbedder := { le_modelPath : string; le_dims : Z }.

Definition NewLocalEmbedder (modelPath : string) : result LocalEmbedder :=
  let modelPath :=
    if String.eqb modelPath "" then
      let candidates :=
        [ path_join env [user_home env; ".picoclaw"; "models"; "embeddings";
                         "all-MiniLM-L6-v2.gguf"];
          path_join env [user_home env; ".picoclaw"; "models"; "embeddings";
                         "model.gguf"] ]%string in
      match filter (fun c => stat_is (stat env c) StatOk = true) candidates with
      | c :: _ => c
      | [] => modelPath
      end
    else modelPath in
  if String.eqb modelPath ""
  then Err (ErrorText "local model path not provided and no default found")
  else if stat_is (stat env modelPath) StatNotExist
  then Err (Errorf "model file not found" modelPath)
  else
    Ok {| le_modelPath := modelPath;
          le_dims := if Contains modelPath "large" then 768 else 384 |}.

Definition wrap64 (x : Z) : Z := x mod 2 ^ 64.

(** [hashString]: [hash = ((hash << 5) + hash) + uint64(c)] over the runes
    of [s], in [uint64]. *)
Definition hashString (s : string) : Z :=
  fold_left
    (fun hash c => wrap64 (wrap64 (wrap64 (Z.shiftl hash 5) + hash) + wrap64 c))
    (runes s) 5381.

(** [extractNgrams]: the [n]-byte windows [text[i:i+n]] of the lower-cased
    text, for [i] from 0 to [len(text)-n]. *)
Definition extractNgrams (text : string) (n : nat) : list string :=
  let text := bytes (ToLower T text) in
  map (fun i => of_bytes (take n (drop i text)))
      (seq 0 (length text + 1 - n)).

(** [fallbackEmbedding]. *)
Definition fallbackEmbedding (e : LocalEmbedder) (text : string) : list F :=
  let vector := replicate (Z.to_nat (le_dims e)) f_zero in
  let ngrams := extractNgrams text 3 in
  normalizeVector
    (fold_left
       (fun vector ngram =>
          let hash := hashString ngram in
          let idx := Z.to_nat (hash mod le_dims e) in
          alter (fun x => f_add x f_one) idx vector)
       ngrams vector).

Definition embedWithPython (e : LocalEmbedder) (scriptPath text : string)
  : result (list F) :=
  match run_python env scriptPath (le_modelPath e) text with
  | Err err => Err (Wrapf "embedding script failed" err)
  | Ok output =>
    match json_floats env output with
    | Err err => Err err
    | Ok embedding => Ok (normalizeVector embedding)
    end
  end.

Definition LocalEmbedder_Embed (e : LocalEmbedder) (text : string)
  : result (list F) :=
  let scriptPath := path_join env [path_dir env (le_modelPath e); "embed.py"%string] in
  if stat_is (stat env scriptPath) StatOk then embedWithPython e scriptPath text
  else Ok (fallbackEmbedding e text).

(** ** SimpleEmbedder *)

Definition commonWords : list string := [
  "the"; "be"; "to"; "of"; "and"; "a"; "in"; "that"; "have"; "i";
  "it"; "for"; "not"; "on"; "with"; "he"; "as"; "you"; "do"; "at";
  "this"; "but"; "his"; "by"; "from"; "they"; "we"; "say"; "her"; "she";
  "or"; "an"; "will"; "my"; "one"; "all"; "would"; "there"; "their"; "what";
  "so"; "up"; "out"; "if"; "about"; "who"; "get"; "which"; "go"; "me";
  "when"; "make"; "can"; "like"; "time"; "no"; "just"; "him"; "know"; "take";
  "people"; "into"; "year"; "your"; "good"; "some"; "could"; "them"; "see"; "other";
  "than"; "then"; "now"; "look"; "only"; "come"; "its"; "over"; "think"; "also";
  "back"; "after"; "use"; "two"; "how"; "our"; "work"; "first"; "well"; "way";
  "even"; "new"; "want"; "because"; "any"; "these"; "give"; "day"; "most"; "us";
  "is"; "was"; "are"; "were"; "been"; "has"; "had"; "did"; "does"; "doing";
  "code"; "function"; "class"; "method"; "variable"; "program"; "software"; "computer";
  "data"; "file"; "project"; "build"; "test"; "run"; "debug"; "error"; "fix";
  "create"; "add"; "remove"; "delete"; "update"; "change"; "modify"; "edit";
  "install"; "configure"; "setup"; "deploy"; "server"; "client"; "api"; "web";
  "database"; "query"; "table"; "column"; "row"; "sql"; "nosql"; "json"; "xml";
  "python"; "javascript"; "typescript"; "go"; "golang"; "rust"; "java"; "cpp"; "c++";
  "react"; "vue"; "angular"; "node"; "express"; "django"; "flask"; "fastapi";
  "docker"; "kubernetes"; "container"; "cloud"; "aws"; "azure"; "gcp";
  "git"; "github"; "commit"; "branch"; "merge"; "pull"; "push"; "repository";
  "memory"; "remember"; "recall"; "search"; "find"; "store"; "save"; "load";
  "user"; "preference"; "like"; "dislike"; "want"; "need"; "important"; "always";
  "never"; "usually"; "sometimes"; "often"; "rarely"; "name"; "email"; "phone";
  "address"; "location"; "place"; "city"; "country"; "company"; "work"; "job"
]%string.

Record SimpleEmbedder := { se_vocab : gmap string nat; se_dims : Z }.

(** [vocab[word] = i] for every [i, word]: a later index overwrites. *)
Definition build_vocab (words : list string) : gmap string nat :=
  fold_left (fun vocab iw => <[iw.2 := iw.1]> vocab)
            (combine (seq 0 (length words)) words) ∅.

Definition NewSimpleEmbedder : SimpleEmbedder :=
  {| se_vocab := build_vocab commonWords;
     se_dims := Z.of_nat (length commonWords) |}.

(** The first loop of [SimpleEmbedder.Embed]: [wordCount]. *)
Definition count_words (words : list string) : gmap string nat :=
  fold_left
    (fun wordCount word =>
       let word := trim_non_letters word in
       if String.eqb word "" then wordCount
       else <[word := S (default 0%nat (wordCount !! word))]> wordCount)
    words ∅.

(** The second loop, over the entries of [wordCount] in the order
    [entries] lists them (Go fixes no order for a map). *)
Definition fill_vector (e : SimpleEmbedder) (nwords : nat)
    (entries : list (string * nat)) (vector : list F) : list F :=
  fold_left
    (fun vector wc =>
       match se_vocab e !! wc.1 with
       | Some idx =>
         let tf := f_div (f_of_Z (Z.of_nat wc.2)) (f_of_Z (Z.of_nat nwords)) in
         <[idx := tf]> vector
       | None => vector
       end)
    entries vector.

(** [SimpleEmbedder.Embed] when the map is ranged over in [order]. *)
Definition SimpleEmbedder_Embed_in
    (order : gmap string nat -> list (string * nat))
    (e : SimpleEmbedder) (text : string) : result (list F) :=
  let vector := replicate (Z.to_nat (se_dims e)) f_zero in
  let words := Fields (ToLower T text) in
  let wordCount := count_words words in
  Ok (normalizeVector (fill_vector e (length words) (order wordCount) vector)).

Definition SimpleEmbedder_Embed : SimpleEmbedder -> string -> result (list F) :=
  SimpleEmbedder_Embed_in map_to_list.

(** ** The three implementations as [EmbeddingProvider]s *)

Definition OpenAI_provider (e : OpenAIEmbedder) : EmbeddingProvider F :=
  {| Embed := OpenAIEmbedder_Embed e; Dimensions := oa_dims e |}.
Definition Local_provider (e : LocalEmbedder) : EmbeddingProvider F :=
  {| Embed := LocalEmbedder_Embed e; Dimensions := le_dims e |}.
Definition Simple_provider_in
    (order : gmap string nat -> list (string * nat)) (e : SimpleEmbedder)
  : EmbeddingProvider F :=
  {| Embed := SimpleEmbedder_Embed_in order e; Dimensions := se_dims e |}.

End Embedders.

(* ================================================================= *)
(** * The memory store (store.go)                                     *)
(* ================================================================= *)

Section Store.
Context {F : Type} `{Float32 F}.
Variable T : GoStr.CaseTable.
Import GoStr Regexp.
Local Open Scope Z_scope.

Record MemoryEntry := {
  ID : string;
  Text : string;
  Vector : list F;
  Importance : F;
  Category : string;
  SessionKey : string;
  CreatedAt : Z                  (* time.Time, as nanoseconds *)
}.

Record MemorySearchResult := { Entry : MemoryEntry; Score : F }.

Record StoreConfig := {
  DbPath : string;
  EmbeddingProviderName : string;       (* "openai" or "local" *)
  EmbeddingModel : string;
  OpenAIAPIKey : string;
  LocalModelPath : string;
  MinScore : F;
  MaxResults : Z;
  AutoCaptureEnabled : bool
}.

Definition DefaultConfig (env : Env F) (workspace : string) : StoreConfig :=
  {| DbPath := path_join env [workspace; "memory"; "vector.db"]%string;
     EmbeddingProviderName := "openai";
     EmbeddingModel := "text-embedding-3-small";
     OpenAIAPIKey := "";
     LocalModelPath := "";
     MinScore := f_lit 5 10;
     MaxResults := 5;
     AutoCaptureEnabled := true |}.

(** A row of the table [memories].  The column [vector] holds the JSON
    text of the vector: [Some v] when it decodes to [v], [None] when
    [json.Unmarshal] rejects it.  The other columns read back as they
    were written. *)
Record Row := {
  row_id : string;
  row_text : string;
  row_vector : option (list F);
  row_importance : F;
  row_category : string;
  row_session_key : string;
  row_created_at : Z
}.

(** The store: the table in insertion (rowid) order, the provider, the
    configuration and the category list. *)
Record MemoryStore := {
  db : list Row;
  embedder : EmbeddingProvider F;
  config : StoreConfig;
  categories : list string
}.

Definition with_db (s : MemoryStore) (rows : list Row) : MemoryStore :=
  {| db := rows; embedder := embedder s; config := config s;
     categories := categories s |}.

Definition MemoryCategories : list string :=
  ["preference"; "decision"; "entity"; "fact"; "other"]%string.

(** [initEmbedder]: only "openai" and "local" are known. *)
Definition initEmbedder (env : Env F) (cfg : StoreConfig)
  : result (EmbeddingProvider F) :=
  if String.eqb (EmbeddingProviderName cfg) "openai" then
    match NewOpenAIEmbedder env (OpenAIAPIKey cfg) (EmbeddingModel cfg) with
    | Err e => Err e
    | Ok e => Ok (OpenAI_provider env e)
    end
  else if String.eqb (EmbeddingProviderName cfg) "local" then
    match NewLocalEmbedder env (LocalModelPath cfg) with
    | Err e => Err e
    | Ok e => Ok (Local_provider T env e)
    end
  else Err (Errorf "unknown embedding provider" (EmbeddingProviderName cfg)).

(** [NewMemoryStore] on a database file holding [rows] (none when the
    file is new: the schema is created empty). *)
Definition NewMemoryStore (env : Env F) (cfg : StoreConfig) (rows : list Row)
  : result MemoryStore :=
  match initEmbedder env cfg with
  | Err e => Err e
  | Ok emb => Ok {| db := rows; embedder := emb; config := cfg;
                    categories := MemoryCategories |}
  end.

(** [isValidCategory]. *)
Definition isValidCategory (s : MemoryStore) (category : string) : bool :=
  existsb (fun c => String.eqb c category) (categories s).

Definition row_of_entry (e : MemoryEntry) : Row :=
  {| row_id := ID e; row_text := Text e; row_vector := Some (Vector e);
     row_importance := Importance e; row_category := Category e;
     row_session_key := SessionKey e; row_created_at := CreatedAt e |}.

(** [Store].  [newID] is what [uuid.New().String()] returns and [now] what
    [time.Now()] returns.  [json.Marshal] refuses NaN and infinities; the
    [INSERT] fails when the primary key is taken. *)
Definition Store (s : MemoryStore) (newID : string) (now : Z)
    (text : string) (importance : F) (category sessionKey : string)
  : result MemoryEntry * MemoryStore :=
  match Embed (embedder s) text with
  | Err err => (Err (Wrapf "failed to generate embedding" err), s)
  | Ok vector =>
    let category := if isValidCategory s category then category else "other"%string in
    let entry := {| ID := newID; Text := text; Vector := vector;
                    Importance := importance; Category := category;
                    SessionKey := sessionKey; CreatedAt := now |} in
    if negb (forallb f_finite vector)
    then (Err (Wrapf "failed to serialize vector"
                 (ErrorText "json: unsupported value")), s)
    else if existsb (fun r => String.eqb (row_id r) newID) (db s)
    then (Err (Wrapf "failed to store memory"
                 (ErrorText "UNIQUE constraint failed: memories.id")), s)
    else (Ok entry, with_db s (db s ++ [row_of_entry entry]))
  end.

(** [SELECT ... ORDER BY created_at DESC LIMIT 1000].  SQL leaves the
    order of rows with equal [created_at] open; here the row inserted
    later comes first, as a backward scan of the index on [created_at]
    yields them. *)
Fixpoint insert_recent (r : Row) (l : list Row) : list Row :=
  match l with
  | [] => [r]
  | x :: l' =>
    if row_created_at x <=? row_created_at r then r :: l
    else x :: insert_recent r l'
  end.

Definition order_by_created_desc (rows : list Row) : list Row :=
  fold_left (fun acc r => insert_recent r acc) rows [].

Definition recent_window (rows : list Row) : list Row :=
  take 1000 (order_by_created_desc rows).

Definition entry_of_row (r : Row) (v : list F) : MemoryEntry :=
  {| ID := row_id r; Text := row_text r; Vector := v;
     Importance := row_importance r; Category := row_category r;
     SessionKey := row_session_key r; CreatedAt := row_created_at r |}.

(** The loop over the rows: a row whose vector does not decode is
    skipped; a candidate is kept when [score >= minScore]. *)
Definition score_rows (queryVector : list F) (minScore : F) (rows : list Row)
  : list MemorySearchResult :=
  fold_left
    (fun results r =>
       match row_vector r with
       | None => results
       | Some v =>
         let score := cosineSimilarity queryVector v in
         if f_geb score minScore
         then results ++ [{| Entry := entry_of_row r v; Score := score |}]
         else results
       end)
    rows [].

(** [results[i], results[j] = results[j], results[i]]. *)
Definition swap (results : list MemorySearchResult) (i j : nat)
  : list MemorySearchResult :=
  match results !! i, results !! j with
  | Some ri, Some rj => <[j := ri]> (<[i := rj]> results)
  | _, _ => results
  end.

(** The body of the inner loop:
    [if results[j].Score > results[i].Score { swap }]. *)
Definition sort_step (i : nat) (results : list MemorySearchResult) (j : nat)
  : list MemorySearchResult :=
  match results !! j, results !! i with
  | Some rj, Some ri =>
    if f_gtb (Score rj) (Score ri) then swap results i j else results
  | _, _ => results
  end.

(** The inner loop: [for j := i + 1; j < len(results); j++]. *)
Definition sort_inner (i : nat) (results : list MemorySearchResult)
  : list MemorySearchResult :=
  fold_left (sort_step i) (seq (S i) (length results - S i)) results.

(** The outer loop: [for i := 0; i < len(results)-1; i++]. *)
Definition sort_by_score (results : list MemorySearchResult)
  : list MemorySearchResult :=
  fold_left (fun results i => sort_inner i results)
            (seq 0 (length results - 1)) results.

(** [if limit <= 0 { limit = s.config.MaxResults }] and
    [if minScore <= 0 { minScore = s.config.MinScore }]. *)
Definition effective_limit (s : MemoryStore) (limit : Z) : Z :=
  if limit <=? 0 then MaxResults (config s) else limit.
Definition effective_minScore (s : MemoryStore) (minScore : F) : F :=
  if f_leb minScore f_zero then MinScore (config s) else minScore.

(** [Search].  [results[:limit]] with a negative [limit] panics. *)
Definition Search (s : MemoryStore) (query : string) (limit : Z) (minScore : F)
  : result (list MemorySearchResult) :=
  let limit := effective_limit s limit in
  let minScore := effective_minScore s minScore in
  match Embed (embedder s) query with
  | Err err => Err (Wrapf "failed to generate query embedding" err)
  | Ok queryVector =>
    let results := score_rows queryVector minScore (recent_window (db s)) in
    let results := sort_by_score results in
    if Z.of_nat (length results) >? limit then
      if limit <? 0 then Err (RuntimePanic "slice bounds out of range")
      else Ok (take (Z.to_nat limit) results)
    else Ok results
  end.

(** The pattern of [Delete]:
    [^[0-9a-f]{8}-[0-9a-f]{4}-[0-9a-f]{4}-[0-9a-f]{4}-[0-9a-f]{12}$] *)
Definition uuid_shape : list (Z -> bool) :=
  let hex := is_hex_lower in
  let dash := Z.eqb 45 in
  repeat hex 8 ++ [dash] ++ repeat hex 4 ++ [dash] ++ repeat hex 4
  ++ [dash] ++ repeat hex 4 ++ [dash] ++ repeat hex 12.

Definition uuidRegex : Regexp := whole (seq_of (map RChar uuid_shape)).

(** [Delete]: [DELETE FROM memories WHERE id = ?] compares the text of
    the id as given, byte by byte. *)
Definition Delete (s : MemoryStore) (id : string) : option error * MemoryStore :=
  if negb (MatchString uuidRegex (ToLower T id))
  then (Some (Errorf "invalid memory ID format" id), s)
  else
    let kept := filter (fun r => row_id r ≠ id) (db s) in
    let rows := (length (db s) - length kept)%nat in
    if (rows =? 0)%nat
    then (Some (Errorf "memory not found" id), with_db s kept)
    else (None, with_db s kept).

(** [Count]. *)
Definition Count (s : MemoryStore) : Z := Z.of_nat (length (db s)).

End Store.

Arguments ID {F} _.
Arguments Text {F} _.
Arguments Vector {F} _.
Arguments Importance {F} _.
Arguments Category {F} _.
Arguments SessionKey {F} _.
Arguments CreatedAt {F} _.
Arguments Entry {F} _.
Arguments Score {F} _.
Arguments MinScore {F} _.
Arguments MaxResults {F} _.
Arguments row_id {F} _.
Arguments row_text {F} _.
Arguments row_vector {F} _.
Arguments row_importance {F} _.
Arguments row_category {F} _.
Arguments row_session_key {F} _.
Arguments row_created_at {F} _.
Arguments db {F} _.
Arguments embedder {F} _.
Arguments config {F} _.
Arguments categories {F} _.

(* ================================================================= *)
(** * Auto-capture and the tools (tool.go)                            *)
(* ================================================================= *)

Section Tools.
Context {F : Type} `{Float32 F}.
Variable T : GoStr.CaseTable.
Import GoStr Regexp.
Local Open Scope Z_scope.

(** ** AutoCapture *)

(** The trigger patterns of [ShouldCapture], in the order of the source. *)
Definition triggers : list Regexp := [
  (* (?i)remember|zapamatuj|pamatuj *)
  unanchored (any_of [lit_i "remember"; lit_i "zapamatuj"; lit_i "pamatuj"]);
  (* (?i)prefer|radši|like|love|hate|want|need *)
  unanchored (any_of [lit_i "prefer"; lit_i "radši"; lit_i "like"; lit_i "love";
                      lit_i "hate"; lit_i "want"; lit_i "need"]);
  (* (?i)decided|rozhodli|will use|budeme *)
  unanchored (any_of [lit_i "decided"; lit_i "rozhodli"; lit_i "will use";
                      lit_i "budeme"]);
  (* \+\d{10,} *)
  unanchored (RCat (chr 43) (at_least 10 (RChar is_digit)));
  (* [\w.-]+@[\w.-]+\.\w+ *)
  (let w := RChar (fun r => is_word r || (r =? 46) || (r =? 45)) in
   unanchored (seq_of [plus w; chr 64; plus w; chr 46; plus (RChar is_word)]));
  (* (?i)můj\s+\w+\s+je|je\s+můj *)
  unanchored (any_of [
    seq_of [lit_i "můj"; plus (RChar is_space); plus (RChar is_word_i);
            plus (RChar is_space); lit_i "je"];
    seq_of [lit_i "je"; plus (RChar is_space); lit_i "můj"]]);
  (* (?i)my\s+\w+\s+is|is\s+my *)
  unanchored (any_of [
    seq_of [lit_i "my"; plus (RChar is_space); plus (RChar is_word_i);
            plus (RChar is_space); lit_i "is"];
    seq_of [lit_i "is"; plus (RChar is_space); lit_i "my"]]);
  (* (?i)always|never|important *)
  unanchored (any_of [lit_i "always"; lit_i "never"; lit_i "important"])
].

(** The runes of [text] in [0x1F300, 0x1F9FF]. *)
Definition emojiCount (text : string) : nat :=
  length (filter (fun r => between 127744 129535 r = true) (runes text)).

(** [ShouldCapture]. *)
Definition ShouldCapture (text : string) : bool :=
  if (Z.of_nat (String.length text) <? 10) || (Z.of_nat (String.length text) >? 500)
  then false
  else if Contains text "<relevant-memories>" then false
  else if HasPrefix text "<" && Contains text "</" then false
  else if (3 <? emojiCount text)%nat then false
  else existsb (fun trigger => MatchString trigger text) triggers.

(** [DetectCategory]. *)
Definition DetectCategory (text : string) : string :=
  let lower := ToLower T text in
  (* (?i)prefer|radši|like|love|hate|want *)
  if MatchString (unanchored (any_of [lit_i "prefer"; lit_i "radši"; lit_i "like";
                                      lit_i "love"; lit_i "hate"; lit_i "want"])) lower
  then "preference"%string
  (* (?i)decided|rozhodli|will use|budeme *)
  else if MatchString (unanchored (any_of [lit_i "decided"; lit_i "rozhodli";
                                           lit_i "will use"; lit_i "budeme"])) lower
  then "decision"%string
  (* (?i)\+\d{10,}|@[\w.-]+\.\w+|is called|jmenuje se *)
  else if MatchString (unanchored (any_of [
            RCat (chr 43) (at_least 10 (RChar is_digit));
            seq_of [chr 64;
                    plus (RChar (fun r => is_word_i r || (r =? 46) || (r =? 45)));
                    chr 46; plus (RChar is_word_i)];
            lit_i "is called"; lit_i "jmenuje se"])) lower
  then "entity"%string
  (* (?i)is|are|has|have|je|má|jsou *)
  else if MatchString (unanchored (any_of [lit_i "is"; lit_i "are"; lit_i "has";
                                           lit_i "have"; lit_i "je"; lit_i "má";
                                           lit_i "jsou"])) lower
  then "fact"%string
  else "other"%string.

(** (?i)always|never *)
Definition emphasis : Regexp :=
  unanchored (any_of [lit_i "always"; lit_i "never"]).

(** The importance [Capture] computes: two assignments in sequence. *)
Definition capture_importance (text : string) : F :=
  let importance := f_lit 5 10 in
  let importance :=
    if Contains (ToLower T text) "important" then f_lit 8 10 else importance in
  let importance :=
    if MatchString emphasis text then f_lit 7 10 else importance in
  importance.

(** [Capture]: [(nil, nil)] is [Ok None]. *)
Definition Capture (s : MemoryStore) (newID : string) (now : Z)
    (text sessionKey : string) : result (option MemoryEntry) * MemoryStore :=
  if negb (ShouldCapture text) then (Ok None, s)
  else
    let category := DetectCategory text in
    let importance := capture_importance text in
    match Store s newID now text importance category sessionKey with
    | (Ok entry, s') => (Ok (Some entry), s')
    | (Err err, s') => (Err err, s')
    end.

(** ** The tools *)

(** A value of a [map[string]interface{}] decoded from JSON. *)
Inductive Any :=
| AnyNil
| AnyBool (b : bool)
| AnyNumber (x : spec_float)            (* float64 *)
| AnyString (s : string)
| AnyOther.                             (* an array or an object *)

Record ToolResult := {
  ForLLM : string;
  ForUser : string;
  ToolErr : option error
}.

(** [int(l)] for a [float64]: truncation; outside [int64], for NaN and
    for the infinities the result depends on the machine (here the
    smallest [int64], as amd64 gives). *)
Definition int_of_float64 (x : spec_float) : Z :=
  let v :=
    match x with
    | S754_zero _ => Some 0
    | S754_finite s m e =>
      Some (cond_Zopp s (match e with
                         | Zneg p => Zpos m / 2 ^ Zpos p
                         | _ => Zpos m * 2 ^ e
                         end))
    | _ => None
    end in
  match v with
  | Some n => if (- 2 ^ 63 <=? n) && (n <? 2 ^ 63) then n else - 2 ^ 63
  | None => - 2 ^ 63
  end.

Definition newline : string := String "010" EmptyString.

(** [%d]. *)
Definition format_int (n : Z) : string :=
  if n <? 0 then ("-" ++ B32.digit_string (- n))%string else B32.digit_string n.

(** [fmt.Sprintf("%d. [%s] (score: %.2f) %s\n", i+1, ...)]. *)
Definition format_result (i : nat) (r : MemorySearchResult) : string :=
  (format_int (Z.of_nat i + 1) ++ ". [" ++ Category (Entry r) ++ "] (score: "
   ++ f_format2 (Score r) ++ ") " ++ Text (Entry r) ++ newline)%string.

(** [MemoryTool.Execute]. *)
Definition MemoryTool_Execute (s : MemoryStore) (params : gmap string Any)
  : ToolResult :=
  let required :=
    {| ForLLM := ""; ForUser := "";
       ToolErr := Some (ErrorText "query parameter is required") |} in
  match params !! "query"%string with
  | Some (AnyString query) =>
    if String.eqb query "" then required
    else
      let limit :=
        match params !! "limit"%string with
        | Some (AnyNumber l) => int_of_float64 l
        | _ => 5
        end in
      match Search s query limit (f_lit 5 10) with
      | Err err =>
        {| ForLLM := ""; ForUser := "";
           ToolErr := Some (Wrapf "memory search failed" err) |}
      | Ok [] =>
        {| ForLLM := "No relevant memories found."; ForUser := "";
           ToolErr := None |}
      | Ok results =>
        {| ForLLM :=
             ("Found " ++ format_int (Z.of_nat (length results))
              ++ " relevant memories:" ++ newline ++ newline
              ++ String.concat "" (imap format_result results))%string;
           ForUser := ""; ToolErr := None |}
      end
  | _ => required
  end.

(** [MemoryCaptureTool.Execute]; [newID] and [now] as in [Store]. *)
Definition MemoryCaptureTool_Execute (s : MemoryStore) (newID : string) (now : Z)
    (params : gmap string Any) : ToolResult * MemoryStore :=
  match params !! "text"%string with
  | Some (AnyString text) =>
    if String.eqb text "" then
      ({| ForLLM := ""; ForUser := "";
          ToolErr := Some (ErrorText "text parameter is required") |}, s)
    else
      let category :=
        match params !! "category"%string with
        | Some (AnyString c) => c
        | _ => "other"%string
        end in
      let importance :=
        match params !! "importance"%string with
        | Some (AnyNumber i) => f_of_float64 i
        | _ => f_lit 5 10
        end in
      match Store s newID now text importance category "" with
      | (Err err, s') =>
        ({| ForLLM := ""; ForUser := "";
            ToolErr := Some (Wrapf "failed to store memory" err) |}, s')
      | (Ok entry, s') =>
        ({| ForLLM := ("Memory stored successfully (ID: " ++ ID entry ++ ")")%string;
            ForUser := ""; ToolErr := None |}, s')
      end
  | _ =>
    ({| ForLLM := ""; ForUser := "";
        ToolErr := Some (ErrorText "text parameter is required") |}, s)
  end.

End Tools.

(* ================================================================= *)
(** * The vocabulary of the properties                                *)
(* ================================================================= *)

(** ** The language of a regular expression *)

Module Language.
Import Regexp.

(** [lang r s]: the runes [s] are a word of [r]. *)
Inductive lang : regex -> list Z -> Prop :=
| lang_eps : lang REps []
| lang_char (p : Z -> bool) (c : Z) : p c = true -> lang (RChar p) [c]
| lang_cat (a b : regex) (s t : list Z) :
    lang a s -> lang b t -> lang (RCat a b) (s ++ t)
| lang_alt_l (a b : regex) (s : list Z) : lang a s -> lang (RAlt a b) s
| lang_alt_r (a b : regex) (s : list Z) : lang b s -> lang (RAlt a b) s
| lang_star_nil (a : regex) : lang (RStar a) []
| lang_star_app (a : regex) (s t : list Z) :
    lang a s -> lang (RStar a) t -> lang (RStar a) (s ++ t).

End Language.

(** ** Canonical UUIDs *)

Module Canonical.
Import GoStr Regexp.
Local Open Scope Z_scope.

(** [s] has one rune per class of [ps], each in its class. *)
Fixpoint match_shape (ps : list (Z -> bool)) (s : list Z) : bool :=
  match ps, s with
  | [], [] => true
  | p :: ps', c :: s' => p c && match_shape ps' s'
  | _, _ => false
  end.

(** The canonical textual form of a UUID, letters in either case: 36
    bytes, hexadecimal digits in groups of 8, 4, 4, 4 and 12 with a dash
    between the groups. *)
Definition is_hex_any_case (b : Z) : bool :=
  is_digit b || between 97 102 b || between 65 70 b.

Definition canonical_shape : list (Z -> bool) :=
  let hex := is_hex_any_case in
  let dash := Z.eqb 45 in
  repeat hex 8 ++ [dash] ++ repeat hex 4 ++ [dash] ++ repeat hex 4
  ++ [dash] ++ repeat hex 4 ++ [dash] ++ repeat hex 12.

Definition canonical_uuid (id : string) : bool :=
  match_shape canonical_shape (bytes id).

Definition uuid_char (c : Z) : bool := is_hex_lower c || (45 =? c).

End Canonical.

(** ** Texts *)

(** A text made of ASCII bytes only. *)
Definition is_ascii (text : string) : Prop :=
  Forall (fun b => (b < 128)%Z) (GoStr.bytes text).

(** ** Scores *)

(** What the sort needs of [<] on scores; it holds of binary32, NaN
    included, and of the reals. *)
Class ScoreOrder (F : Type) `{Float32 F} : Prop := {
  f_ltb_trans : forall x y z : F,
    f_ltb x y = true -> f_ltb y z = true -> f_ltb x z = true;
  f_ltb_irrefl : forall x : F, f_ltb x x = false
}.

(** ** Exact arithmetic *)


(** ** Clients, candidates and providers *)

(** The calls a client makes on a store. *)
Inductive Op (F : Type) :=
| OpStore (newID : string) (now : Z) (text : string) (importance : F)
          (category sessionKey : string)
| OpCapture (newID : string) (now : Z) (text sessionKey : string)
| OpDelete (id : string).
Arguments OpStore {F} _ _ _ _ _ _.
Arguments OpCapture {F} _ _ _ _.
Arguments OpDelete {F} _.

Section Vocabulary.
Context {F : Type} `{Float32 F}.
Variable T : GoStr.CaseTable.
Import GoStr.

Implicit Types s : @MemoryStore F.

(** [y] does not outrank [x]: not [y.Score > x.Score]. *)
Definition not_above (x y : @MemorySearchResult F) : Prop :=
  f_gtb (Score y) (Score x) = false.

Definition apply_op s (o : Op F) : @MemoryStore F :=
  match o with
  | OpStore newID now text importance category sessionKey =>
    (Store s newID now text importance category sessionKey).2
  | OpCapture newID now text sessionKey =>
    (Capture T s newID now text sessionKey).2
  | OpDelete id => (Delete T s id).2
  end.

Definition run (ops : list (Op F)) s : @MemoryStore F :=
  fold_left apply_op ops s.

(** The identifier an operation inserts under, if it inserts. *)
Definition new_id (o : Op F) : option string :=
  match o with
  | OpStore newID _ _ _ _ _ => Some newID
  | OpCapture newID _ _ _ => Some newID
  | OpDelete _ => None
  end.

(** What one row adds to the results of [Search]. *)
Definition scored (queryVector : list F) (minScore : F) (r : @Row F)
  : list (@MemorySearchResult F) :=
  match row_vector r with
  | None => []
  | Some v =>
    let score := cosineSimilarity queryVector v in
    if f_geb score minScore
    then [{| Entry := entry_of_row r v; Score := score |}]
    else []
  end.


(** A way of ranging over a map: some listing of its entries. *)
Definition range_order (order : gmap string nat -> list (string * nat)) : Prop :=
  forall m, order m ≡ₚ map_to_list m.


(** There is no script beside the model of [e]. *)
Definition no_script (env : Env F) (e : LocalEmbedder) : Prop :=
  stat env (path_join env [path_dir env (le_modelPath e); "embed.py"%string])
  <> StatOk.

(** Two providers that differ at most in what the text does not decide:
    the order in which the vocabulary provider ranges over its map, or
    the outside of a local provider that has no script. *)
Definition same_source (p1 p2 : EmbeddingProvider F) : Prop :=
  (exists order1 order2,
      range_order order1 /\ range_order order2
      /\ p1 = Simple_provider_in T order1 NewSimpleEmbedder
      /\ p2 = Simple_provider_in T order2 NewSimpleEmbedder)
  \/ (exists env1 env2 e,
        no_script env1 e /\ no_script env2 e
        /\ p1 = Local_provider T env1 e /\ p2 = Local_provider T env2 e).

End Vocabulary.

(** ** Stores and texts for the examples *)

Module Fixtures.
Import GoStr.

(** A case table that leaves every rune above ASCII as it is: on ASCII
    text [ToLower] is then Go's. *)
Definition plain_table : CaseTable :=
  {| lower_table := fun r => r;
     lower_table_high := fun r Hr => or_introl Hr |}.

Definition model_file : string := "/models/all-MiniLM-L6-v2.gguf".

(** An outside world with the model file and nothing else: no script
    beside it, no network. *)
Definition offline {F : Type} : Env F :=
  {| getenv := fun _ => ""%string;
     user_home := "/home/user";
     stat := fun p => if String.eqb p model_file then StatOk else StatNotExist;
     path_join := String.concat "/";
     path_dir := fun _ => "/models"%string;
     openai_embeddings := fun _ _ _ => Err (ErrorText "dial tcp: no route to host");
     run_python := fun _ _ _ => Err (ErrorText "exec: python3 not found");
     json_floats := fun _ => Err (ErrorText "unexpected end of JSON input") |}.

(** The configuration that selects the local provider. *)
Definition local_config : @StoreConfig spec_float :=
  {| DbPath := "/workspace/memory/vector.db";
     EmbeddingProviderName := "local";
     EmbeddingModel := "";
     OpenAIAPIKey := "";
     LocalModelPath := model_file;
     MinScore := f_lit 5 10;
     MaxResults := 5;
     AutoCaptureEnabled := true |}.

(** The store [NewMemoryStore] makes of it, in binary32: an empty table
    and the local provider which, for want of a script, embeds by the
    hash fallback. *)
Definition local_embedder : LocalEmbedder :=
  {| le_modelPath := model_file; le_dims := 384 |}.

Definition local_store : @MemoryStore spec_float :=
  {| db := [];
     embedder := Local_provider plain_table offline local_embedder;
     config := local_config;
     categories := MemoryCategories |}.


(** An empty store whose provider is the remote one, out of reach. *)
Definition remote_store : @MemoryStore spec_float :=
  {| db := [];
     embedder := OpenAI_provider offline
                   {| oa_apiKey := "sk-test"; oa_model := "text-embedding-3-small";
                      oa_dims := 1536 |};
     config := DefaultConfig offline "/workspace";
     categories := MemoryCategories |}.



Definition id1 : string := "00000000-0000-4000-8000-000000000001".
Definition id2 : string := "00000000-0000-4000-8000-000000000002".
Definition id3 : string := "00000000-0000-4000-8000-000000000003".

(** The table after three memories are stored one after the other, the
    last two with the same text; and the store that holds it. *)
Definition tie_rows : list (@Row spec_float) :=
  db (run plain_table
        [OpStore id1 1 "I like python code" (f_lit 5 10) "preference" "s1";
         OpStore id2 2 "I like python" (f_lit 5 10) "preference" "s1";
         OpStore id3 3 "I like python" (f_lit 5 10) "preference" "s1"]
        local_store).

Definition tie_store : @MemoryStore spec_float := with_db local_store tie_rows.

(** The table after one memory is stored, and the store that holds it. *)
Definition one_row : list (@Row spec_float) :=
  db (run plain_table
        [OpStore id1 1 "User prefers dark roast coffee over light roast"
                 (f_lit 5 10) "preference" "s1"]
        local_store).

Definition one_memory : @MemoryStore spec_float := with_db local_store one_row.

Definition both_triggers : string := "It is important to always test".

(** Seven characters in eleven bytes: two Chinese characters of three
    bytes each, a space, and "love". *)
Definition short_wide_text : string :=
  of_bytes [230; 136; 145; 231; 136; 177; 32; 108; 111; 118; 101]%Z.

(** Four times U+1F600, and nothing else. *)
Definition four_emoji : string :=
  of_bytes [240; 159; 152; 128; 240; 159; 152; 128;
            240; 159; 152; 128; 240; 159; 152; 128]%Z.

End Fixtures.

(** ** More vocabulary: rows, words and hashes *)

Section MoreVocabulary.
Context {F : Type} `{Float32 F}.


(** No byte of [id] is an upper-case ASCII letter. *)
Definition no_upper (id : string) : bool :=
  forallb (fun b => negb (GoStr.between 65 90 b)) (GoStr.bytes id).


End MoreVocabulary.

(** Two texts that differ at most in the case of ASCII letters. *)
Definition same_letters (t1 t2 : string) : Prop :=
  map GoStr.asciiLower (GoStr.bytes t1) = map GoStr.asciiLower (GoStr.bytes t2).

(** The hash of Bernstein (djb2) without wrap-around:
    [h := h * 33 + c] from 5381. *)
Definition hash33 (rs : list Z) : Z :=
  fold_left (fun h c => h * 33 + c)%Z rs 5381%Z.

(** The word [w] occurs in [text], its ASCII letters in any case. *)
Definition occurs_in_any_case (w text : string) : Prop :=
  exists pre w' post,
    GoStr.bytes text = pre ++ w' ++ post
    /\ map GoStr.asciiLower w' = GoStr.bytes w.

(** The ASCII words among the alternatives of the trigger patterns of
    [ShouldCapture] that are lists of words: the first, second, third and
    last pattern. *)
Definition trigger_words : list string :=
  ["remember"; "zapamatuj"; "pamatuj";
   "prefer"; "like"; "love"; "hate"; "want"; "need";
   "decided"; "rozhodli"; "will use"; "budeme";
   "always"; "never"; "important"]%string.

(** The ASCII words of the preference pattern of [DetectCategory]. *)
Definition preference_words : list string :=
  ["prefer"; "like"; "love"; "hate"; "want"]%string.


(** ** More stores and texts for the examples *)

Module MoreFixtures.
Import GoStr Fixtures.

(** An identifier with letters, and the same in upper case. *)
Definition id_lower : string := "0a1b2c3d-0000-4000-8000-00000000000f".
Definition id_upper : string := "0A1B2C3D-0000-4000-8000-00000000000F".

(** The table after one memory is stored under [id_lower], and the store
    that holds it. *)
Definition lettered_rows : list (@Row spec_float) :=
  db (run plain_table
        [OpStore id_lower 1 "I prefer tea" (f_lit 5 10) "preference" "s1"]
        local_store).

Definition lettered_memory : @MemoryStore spec_float :=
  with_db local_store lettered_rows.

(** A configuration whose [MaxResults] is negative, and an empty store
    under it. *)
Definition negative_config : @StoreConfig spec_float :=
  {| DbPath := "/workspace/memory/vector.db";
     EmbeddingProviderName := "local";
     EmbeddingModel := "";
     OpenAIAPIKey := "";
     LocalModelPath := model_file;
     MinScore := f_lit 5 10;
     MaxResults := -1;
     AutoCaptureEnabled := true |}.

Definition negative_store : @MemoryStore spec_float :=
  {| db := [];
     embedder := Local_provider plain_table offline local_embedder;
     config := negative_config;
     categories := MemoryCategories |}.

(** A configuration that names the vocabulary-bounded provider, and one
    that names the remote provider and carries a key. *)
Definition unknown_config : @StoreConfig spec_float :=
  {| DbPath := "/workspace/memory/vector.db";
     EmbeddingProviderName := "simple";
     EmbeddingModel := "";
     OpenAIAPIKey := "";
     LocalModelPath := "";
     MinScore := f_lit 5 10;
     MaxResults := 5;
     AutoCaptureEnabled := true |}.

Definition keyed_config : @StoreConfig spec_float :=
  {| DbPath := "/workspace/memory/vector.db";
     EmbeddingProviderName := "openai";
     EmbeddingModel := "";
     OpenAIAPIKey := "sk-test";
     LocalModelPath := "";
     MinScore := f_lit 5 10;
     MaxResults := 5;
     AutoCaptureEnabled := true |}.







End MoreFixtures.

(* ================================================================= *)
(** * Properties                                                      *)
(* ================================================================= *)

(** ** Bytes and runes *)

Module GoStrFacts.
Import GoStr.
Local Open Scope Z_scope.

Lemma length_bytes (s : string) : length (bytes s) = String.length s.
Proof.
  unfold bytes. rewrite length_map.
  induction s as [|c s IH]; simpl; [reflexivity | now rewrite IH].
Qed.

Lemma bytes_range (s : string) : Forall (fun b => 0 <= b < 256) (bytes s).
Proof.
  unfold bytes. induction s as [|c s IH]; cbn [map list_ascii_of_string];
    constructor; [|exact IH].
  pose proof (N_ascii_bounded c) as Hb. lia.
Qed.

Lemma bytes_of_bytes (l : list Z) :
  Forall (fun b => 0 <= b < 256) l -> bytes (of_bytes l) = l.
Proof.
  unfold bytes, of_bytes.
  induction 1 as [|b l Hb _ IH]; cbn [map string_of_list_ascii list_ascii_of_string];
    [reflexivity|].
  rewrite IH. f_equal.
  rewrite N_ascii_embedding by lia. lia.
Qed.

Lemma bytes_app (a b : string) : bytes (a ++ b) = bytes a ++ bytes b.
Proof.
  unfold bytes. induction a as [|c a IH]; cbn [map list_ascii_of_string String.app];
    [reflexivity|].
  cbn [app]. now rewrite <- IH.
Qed.

Lemma length_runes_from (skip : nat) (bs : list Z) :
  (length (runes_from skip bs) <= length bs)%nat.
Proof.
  revert skip. induction bs as [|b t IH]; intros skip; [simpl; lia|].
  cbn [runes_from]. destruct skip as [|k].
  - destruct (DecodeRune (b :: t)) as [r w]. cbn [length].
    specialize (IH (w - 1)%nat). lia.
  - specialize (IH k). cbn [length]. lia.
Qed.

(** A text has at most as many runes as bytes. *)
Lemma RuneCount_le_length (s : string) : (RuneCount s <= String.length s)%nat.
Proof.
  unfold RuneCount, runes. rewrite <- length_bytes. apply length_runes_from.
Qed.

Lemma runes_from_ascii (bs : list Z) :
  Forall (fun b => b < 128) bs -> runes_from 0 bs = bs.
Proof.
  induction 1 as [|b t Hb _ IH]; [reflexivity|].
  cbn [runes_from DecodeRune].
  destruct (Z.ltb_spec b 128); [|lia]. cbn [Nat.sub]. now rewrite IH.
Qed.

(** On ASCII text, runes and bytes coincide. *)
Lemma RuneCount_ascii (s : string) :
  Forall (fun b => b < 128) (bytes s) -> RuneCount s = String.length s.
Proof.
  intros Ha. unfold RuneCount, runes. rewrite runes_from_ascii by exact Ha.
  apply length_bytes.
Qed.

End GoStrFacts.

(** ** The matcher decides the language *)

Module MatcherFacts.
Import Regexp Language.

Lemma lang_none (s : list Z) : ~ lang RNone s.
Proof. inversion 1. Qed.

Lemma lang_eps_inv (s : list Z) : lang REps s -> s = [].
Proof. now inversion 1. Qed.

Lemma lang_cat_inv (a b : regex) (w : list Z) :
  lang (RCat a b) w -> exists s t, w = s ++ t /\ lang a s /\ lang b t.
Proof. inversion 1; subst; eauto. Qed.

Lemma lang_alt_inv (a b : regex) (w : list Z) :
  lang (RAlt a b) w -> lang a w \/ lang b w.
Proof. inversion 1; subst; auto. Qed.

Lemma nullable_lang (r : regex) : nullable r = true <-> lang r [].
Proof.
  induction r as [| |p|a IHa b IHb|a IHa b IHb|a IHa]; cbn [nullable].
  - split; [discriminate | inversion 1].
  - split; [constructor | reflexivity].
  - split; [discriminate | inversion 1].
  - rewrite andb_true_iff, IHa, IHb. split.
    + intros [Ha Hb]. exact (lang_cat a b [] [] Ha Hb).
    + intros (s & t & Heq & Hs & Ht)%lang_cat_inv. symmetry in Heq.
      apply app_eq_nil in Heq as [-> ->]. now split.
  - rewrite orb_true_iff, IHa, IHb. split.
    + intros [Ha|Hb]; [now apply lang_alt_l | now apply lang_alt_r].
    + apply lang_alt_inv.
  - split; [constructor | reflexivity].
Qed.

Lemma cat_lang (a b : regex) (s : list Z) : lang (cat a b) s <-> lang (RCat a b) s.
Proof.
  split.
  - destruct a; destruct b; cbn [cat]; intros Hs;
      try exact Hs; try (now apply lang_none in Hs);
      exact (lang_cat REps _ [] s lang_eps Hs).
  - intros (u & t & -> & Hu & Ht)%lang_cat_inv.
    destruct a; try (now apply lang_none in Hu);
      destruct b; try (now apply lang_none in Ht); cbn [cat];
      try (apply lang_eps_inv in Hu; subst u; exact Ht);
      now apply lang_cat.
Qed.

Lemma alt_lang (a b : regex) (s : list Z) : lang (alt a b) s <-> lang (RAlt a b) s.
Proof.
  split.
  - destruct a; destruct b; cbn [alt]; intros Hs;
      try exact Hs; try (now apply lang_alt_r); now apply lang_alt_l.
  - intros [Hl|Hr]%lang_alt_inv.
    + destruct a; try (now apply lang_none in Hl);
        destruct b; cbn [alt]; try exact Hl; now apply lang_alt_l.
    + destruct b; try (now apply lang_none in Hr);
        destruct a; cbn [alt]; try exact Hr; now apply lang_alt_r.
Qed.

(** A non-empty word of [a*] starts with a non-empty word of [a]. *)
Lemma lang_star_cons (a : regex) (c : Z) (s : list Z) :
  lang (RStar a) (c :: s) ->
  exists s1 s2, s = s1 ++ s2 /\ lang a (c :: s1) /\ lang (RStar a) s2.
Proof.
  intros Hs. remember (RStar a) as r eqn:Er. remember (c :: s) as w eqn:Ew.
  revert s Ew.
  induction Hs as [| | | | | |a' u t Hu _ Ht IH]; intros s0 Ew; try discriminate.
  injection Er as ->. destruct u as [|c' u].
  - cbn [app] in Ew. now apply IH.
  - cbn [app] in Ew. injection Ew as -> <-. eauto.
Qed.

Lemma deriv_lang (c : Z) (r : regex) (s : list Z) :
  lang (deriv c r) s <-> lang r (c :: s).
Proof.
  revert s. induction r as [| |p|a IHa b IHb|a IHa b IHb|a IHa]; intros s;
    cbn [deriv].
  - split; inversion 1.
  - split; inversion 1.
  - destruct (p c) eqn:Hp; split.
    + intros ->%lang_eps_inv. now constructor.
    + inversion 1; subst. constructor.
    + inversion 1.
    + inversion 1; subst. congruence.
  - rewrite alt_lang. split.
    + intros [Hl|Hr]%lang_alt_inv.
      * apply cat_lang, lang_cat_inv in Hl as (u & t & -> & Hu & Ht).
        apply IHa in Hu. exact (lang_cat a b (c :: u) t Hu Ht).
      * destruct (nullable a) eqn:Hn; [|now apply lang_none in Hr].
        apply IHb in Hr. apply nullable_lang in Hn.
        exact (lang_cat a b [] (c :: s) Hn Hr).
    + intros (u & t & Heq & Hu & Ht)%lang_cat_inv. destruct u as [|c' u].
      * cbn [app] in Heq. subst t. apply lang_alt_r.
        apply nullable_lang in Hu. rewrite Hu. now apply IHb.
      * cbn [app] in Heq. injection Heq as <- ->. apply lang_alt_l, cat_lang.
        apply lang_cat; [now apply IHa | exact Ht].
  - rewrite alt_lang. split.
    + intros [Hl|Hr]%lang_alt_inv;
        [apply lang_alt_l; now apply IHa | apply lang_alt_r; now apply IHb].
    + intros [Hl|Hr]%lang_alt_inv;
        [apply lang_alt_l; now apply IHa | apply lang_alt_r; now apply IHb].
  - rewrite cat_lang. split.
    + intros (u & t & -> & Hu & Ht)%lang_cat_inv.
      apply IHa in Hu. exact (lang_star_app a (c :: u) t Hu Ht).
    + intros (s1 & s2 & -> & H1 & H2)%lang_star_cons.
      apply lang_cat; [now apply IHa | exact H2].
Qed.

(** [fullmatch] decides membership in the language. *)
Lemma fullmatch_lang (r : regex) (s : list Z) : fullmatch r s = true <-> lang r s.
Proof.
  revert r. induction s as [|c s IH]; intros r; cbn [fullmatch].
  - apply nullable_lang.
  - rewrite IH. apply deriv_lang.
Qed.

(** [prefixmatch] finds a word at the start, [search] one anywhere. *)
Lemma prefixmatch_lang (r : regex) (s : list Z) :
  prefixmatch r s = true <-> exists w rest, s = w ++ rest /\ lang r w.
Proof.
  revert r. induction s as [|c s IH]; intros r; cbn [prefixmatch];
    rewrite orb_true_iff, nullable_lang.
  - split.
    + intros [Hn|Hf]; [|discriminate]. now exists [], [].
    + intros (w & rest & Heq & Hw). symmetry in Heq.
      apply app_eq_nil in Heq as [-> _]. now left.
  - rewrite IH. split.
    + intros [Hn | (w & rest & -> & Hw)].
      * now exists [], (c :: s).
      * exists (c :: w), rest. split; [reflexivity | now apply deriv_lang].
    + intros (w & rest & Heq & Hw). destruct w as [|c' w].
      * now left.
      * cbn [app] in Heq. injection Heq as <- ->. right.
        exists w, rest. split; [reflexivity | now apply deriv_lang].
Qed.

Lemma search_lang (r : regex) (s : list Z) :
  search r s = true <-> exists pre w post, s = pre ++ w ++ post /\ lang r w.
Proof.
  induction s as [|c s IH]; cbn [search]; rewrite orb_true_iff, prefixmatch_lang.
  - split.
    + intros [(w & rest & Heq & Hw) | Hf]; [|discriminate].
      now exists [], w, rest.
    + intros (pre & w & post & Heq & Hw). left. symmetry in Heq.
      apply app_eq_nil in Heq as [-> Heq]. now exists w, post.
  - rewrite IH. split.
    + intros [(w & rest & Heq & Hw) | (pre & w & post & -> & Hw)].
      * now exists [], w, rest.
      * now exists (c :: pre), w, post.
    + intros (pre & w & post & Heq & Hw). destruct pre as [|c' pre].
      * left. now exists w, post.
      * cbn [app] in Heq. injection Heq as <- ->. right. now exists pre, w, post.
Qed.

End MatcherFacts.

(** ** Patterns that are a sequence of classes *)

Module RegexpFacts.
Import GoStr Regexp Canonical.
Local Open Scope Z_scope.

Lemma fullmatch_none (s : list Z) : fullmatch RNone s = false.
Proof. induction s as [|c s IH]; simpl; [reflexivity | exact IH]. Qed.

Lemma cat_eps_l (b : regex) : cat REps b = b.
Proof. destruct b; reflexivity. Qed.

Lemma alt_none_r (a : regex) : alt a RNone = a.
Proof. destruct a; reflexivity. Qed.

Lemma fullmatch_shape (ps : list (Z -> bool)) (s : list Z) :
  fullmatch (seq_of (map RChar ps)) s = match_shape ps s.
Proof.
  revert s. induction ps as [|p ps IH]; intros [|c s]; try reflexivity.
  - simpl. apply fullmatch_none.
  - cbn [map seq_of fold_right fullmatch deriv nullable match_shape].
    change (fold_right RCat REps (map RChar ps)) with (seq_of (map RChar ps)).
    destruct (p c); cbn [andb].
    + rewrite cat_eps_l, alt_none_r. apply IH.
    + cbn. apply fullmatch_none.
Qed.

Lemma match_shape_Forall (ps : list (Z -> bool)) (q : Z -> bool) (s : list Z) :
  Forall (fun p => forall c, p c = true -> q c = true) ps ->
  match_shape ps s = true -> Forall (fun c => q c = true) s.
Proof.
  intros Hps. revert s.
  induction Hps as [|p ps Hp _ IH]; intros [|c s]; simpl; try discriminate.
  - constructor.
  - intros [Hc Hs]%andb_true_iff. constructor; [now apply Hp | now apply IH].
Qed.

Lemma match_shape_map (f : Z -> Z) (ps qs : list (Z -> bool)) (s : list Z) :
  Forall2 (fun p q => forall c, p (f c) = q c) ps qs ->
  match_shape ps (map f s) = match_shape qs s.
Proof.
  intros Hpq. revert s.
  induction Hpq as [|p q ps qs Hp _ IH]; intros [|c s]; simpl; try reflexivity.
  now rewrite Hp, IH.
Qed.

End RegexpFacts.

(** ** The identifier check of [Delete] *)

Module UuidFacts.
Import GoStr Regexp Canonical GoStrFacts RegexpFacts.
Local Open Scope Z_scope.

Lemma uuid_shape_chars :
  Forall (fun p : Z -> bool => forall c, p c = true -> uuid_char c = true) uuid_shape.
Proof.
  unfold uuid_shape, uuid_char. cbn [repeat app].
  repeat (constructor; [intros c Hc; rewrite Hc; auto using orb_true_r |]).
  constructor.
Qed.

Lemma hex_lower_of_asciiLower (b : Z) :
  is_hex_lower (asciiLower b) = is_hex_any_case b.
Proof.
  unfold is_hex_lower, is_hex_any_case, asciiLower, is_digit, between.
  destruct (Z.leb_spec 65 b), (Z.leb_spec b 90); cbn [andb];
    repeat match goal with
           | |- context [?a <=? ?c] => destruct (Z.leb_spec a c)
           end; try reflexivity; lia.
Qed.

Lemma dash_of_asciiLower (b : Z) : (45 =? asciiLower b) = (45 =? b).
Proof.
  unfold asciiLower, between.
  destruct (Z.leb_spec 65 b), (Z.leb_spec b 90); cbn [andb]; try reflexivity.
  destruct (Z.eqb_spec 45 (b + 32)), (Z.eqb_spec 45 b); try reflexivity; lia.
Qed.

Lemma shapes_agree :
  Forall2 (fun p q : Z -> bool => forall c, p (asciiLower c) = q c)
          uuid_shape canonical_shape.
Proof.
  unfold uuid_shape, canonical_shape. cbn [repeat app].
  repeat (constructor; [first [exact hex_lower_of_asciiLower
                              | exact dash_of_asciiLower] |]).
  constructor.
Qed.

Lemma canonical_shape_ascii (bs : list Z) :
  match_shape canonical_shape bs = true -> Forall (fun b => b < 128) bs.
Proof.
  intros Hm.
  eapply Forall_impl;
    [eapply (match_shape_Forall canonical_shape
               (fun c => is_hex_any_case c || (45 =? c))); [|exact Hm] |].
  - unfold canonical_shape. cbn [repeat app].
    repeat (constructor; [intros c Hc; rewrite Hc; auto using orb_true_r |]).
    constructor.
  - intros b Hb. cbn beta in Hb.
    unfold is_hex_any_case, is_digit, between in Hb.
    repeat match type of Hb with
           | context [?a <=? ?c] => destruct (Z.leb_spec a c)
           | context [?a =? ?c] => destruct (Z.eqb_spec a c)
           end; cbn in Hb; try discriminate; lia.
Qed.

(** A rune below 128 comes from one byte, itself. *)
Lemma DecodeRune_ascii (b : Z) (t : list Z) (r : Z) (w : nat) :
  DecodeRune (b :: t) = (r, w) -> r < 128 -> b = r /\ w = 1%nat.
Proof.
  unfold DecodeRune, cont, between, RuneError.
  repeat match goal with
         | |- context [if ?a <? ?c then _ else _] => destruct (Z.ltb_spec a c)
         | |- context [if ?a =? ?c then _ else _] => destruct (Z.eqb_spec a c)
         | |- context [?a <=? ?c] => destruct (Z.leb_spec a c); cbn [andb]
         | |- context [match ?l with [] => _ | _ :: _ => _ end] => destruct l
         end;
    intros [= <- <-]; intros; try (split; [reflexivity|reflexivity]); lia.
Qed.

Lemma runes_ascii_inv (bs : list Z) :
  Forall (fun r => r < 128) (runes_from 0 bs) -> runes_from 0 bs = bs.
Proof.
  induction bs as [|b t IH]; [reflexivity|].
  cbn [runes_from]. destruct (DecodeRune (b :: t)) as [r w] eqn:Hd.
  intros Hall. inversion Hall as [|? ? Hr Ht]; subst.
  destruct (DecodeRune_ascii _ _ _ _ Hd Hr) as [-> ->].
  cbn [Nat.sub] in *. now rewrite IH.
Qed.

Lemma uuid_char_ascii (c : Z) : uuid_char c = true -> c < 128 /\ c <> 105 /\ c <> 107.
Proof.
  unfold uuid_char, is_hex_lower, is_digit, between. intros Hc.
  repeat match type of Hc with
         | context [?a <=? ?b] => destruct (Z.leb_spec a b)
         | context [?a =? ?b] => destruct (Z.eqb_spec a b)
         end; cbn in Hc; try discriminate; lia.
Qed.

(** The bytes a string is made of survive [of_bytes]. *)
Lemma In_bytes_of_bytes (c : Z) (l : list Z) :
  0 <= c < 256 -> In c l -> In c (bytes (of_bytes l)).
Proof.
  intros Hc. unfold bytes, of_bytes.
  induction l as [|b l IH]; [intros []|].
  cbn [map string_of_list_ascii list_ascii_of_string].
  intros [-> | Hin]; [left | right; now apply IH].
  rewrite N_ascii_embedding by lia. lia.
Qed.

Lemma EncodeRune_high (r : Z) :
  127 < r -> exists c, In c (EncodeRune r) /\ 128 <= c < 256.
Proof.
  intros Hr. unfold EncodeRune, between.
  repeat match goal with
         | |- context [if ?a <? ?c then _ else _] => destruct (Z.ltb_spec a c)
         | |- context [?a <? ?c] => destruct (Z.ltb_spec a c)
         | |- context [?a <=? ?c] => destruct (Z.leb_spec a c)
         end; cbn [orb andb];
    try (exists 189; split; [simpl; tauto | lia]);
    try lia;
    (exists (128 + r mod 64); split; [simpl; tauto |]);
    pose proof (Z.mod_pos_bound r 64); lia.
Qed.

(** Lower-casing a text with a byte outside ASCII leaves a byte that no
    UUID has. *)
Lemma ToLower_bytes_bad (T : CaseTable) (bs : list Z) :
  forallb (fun c => c <? 128) bs = false ->
  exists c, In c (ToLower_bytes T bs)
            /\ (128 <= c < 256 \/ c = 105 \/ c = 107).
Proof.
  intros Hna. unfold ToLower_bytes. rewrite Hna.
  assert (Hr : exists r, In r (runes_from 0 bs) /\ 127 < r).
  { destruct (decide (Forall (fun r => r < 128) (runes_from 0 bs))) as [Hall|Hex].
    - exfalso. rewrite (runes_ascii_inv bs Hall) in Hall.
      apply not_true_iff_false in Hna. apply Hna.
      apply forallb_forall. intros c Hc.
      rewrite Forall_forall in Hall. apply Z.ltb_lt, Hall.
      now apply list_elem_of_In.
    - apply not_Forall_Exists in Hex; [|intros x; apply _].
      apply Exists_exists in Hex as (r & Hin & Hr). exists r.
      split; [now apply list_elem_of_In | cbn in Hr; lia]. }
  destruct Hr as (r & Hin & Hr).
  assert (Hlow : unicode_ToLower T r = lower_table T r).
  { unfold unicode_ToLower. destruct (Z.leb_spec r 127); [lia | reflexivity]. }
  destruct (lower_table_high T r Hr) as [Hhi | Hik].
  - destruct (EncodeRune_high (lower_table T r) Hhi) as (c & Hc & Hrange).
    exists c. split; [|now left].
    apply in_flat_map. exists r. split; [exact Hin|].
    cbn zeta. rewrite Hlow.
    destruct (Z.ltb_spec (lower_table T r) 0); [lia | exact Hc].
  - exists (lower_table T r). split; [|right; exact Hik].
    apply in_flat_map. exists r. split; [exact Hin|].
    cbn zeta. rewrite Hlow.
    destruct Hik as [-> | ->]; simpl; tauto.
Qed.

(** What [Delete] checks is the canonical form, in either case. *)
Lemma uuidRegex_canonical (T : CaseTable) (id : string) :
  MatchString uuidRegex (ToLower T id) = canonical_uuid id.
Proof.
  unfold MatchString, uuidRegex, whole, canonical_uuid. cbn [anchored body].
  rewrite fullmatch_shape. unfold runes, ToLower.
  destruct (forallb (fun c => c <? 128) (bytes id)) eqn:Hascii.
  - unfold ToLower_bytes. rewrite Hascii.
    assert (Hall : Forall (fun b => b < 128) (bytes id)).
    { apply Forall_forall. intros b Hb. apply Z.ltb_lt.
      rewrite forallb_forall in Hascii. apply Hascii. now apply list_elem_of_In. }
    assert (Hlow : Forall (fun b => 0 <= b < 128) (map asciiLower (bytes id))).
    { pose proof (bytes_range id) as Hr.
      rewrite Forall_forall in Hr, Hall. apply Forall_forall.
      intros c (b & <- & Hb)%list_elem_of_In%in_map_iff.
      apply list_elem_of_In in Hb.
      specialize (Hr b Hb). specialize (Hall b Hb). cbn beta in Hr, Hall.
      unfold asciiLower, between.
      destruct (Z.leb_spec 65 b), (Z.leb_spec b 90); cbn [andb]; lia. }
    rewrite bytes_of_bytes by (eapply Forall_impl; [exact Hlow | cbn; lia]).
    rewrite runes_from_ascii by (eapply Forall_impl; [exact Hlow | cbn; lia]).
    apply match_shape_map, shapes_agree.
  - transitivity false.
    + apply not_true_iff_false. intros Hm.
      pose proof (match_shape_Forall _ _ _ uuid_shape_chars Hm) as Hchars.
      assert (Hlt : Forall (fun r => r < 128)
                      (runes_from 0 (bytes (of_bytes (ToLower_bytes T (bytes id)))))).
      { eapply Forall_impl; [exact Hchars|]. intros c Hc.
        now apply uuid_char_ascii in Hc. }
      rewrite (runes_ascii_inv _ Hlt) in Hchars.
      destruct (ToLower_bytes_bad T _ Hascii) as (c & Hin & Hbad).
      assert (Hc : 0 <= c < 256) by lia.
      pose proof (In_bytes_of_bytes c _ Hc Hin) as Hin'.
      rewrite Forall_forall in Hchars.
      apply list_elem_of_In, Hchars, uuid_char_ascii in Hin'. lia.
    + symmetry. apply not_true_iff_false. intros Hm.
      apply canonical_shape_ascii in Hm.
      apply not_true_iff_false in Hascii. apply Hascii.
      apply forallb_forall. intros b Hb. apply Z.ltb_lt.
      rewrite Forall_forall in Hm. apply Hm. now apply list_elem_of_In.
Qed.

End UuidFacts.

(** ** The exchange sort of [Search] *)

Section SortFacts.
Context {F : Type} `{Float32 F}.

Implicit Types l : list (@MemorySearchResult F).

Lemma swap_length l i j : length (swap l i j) = length l.
Proof.
  unfold swap. destruct (l !! i), (l !! j); try reflexivity.
  now rewrite !length_insert.
Qed.

Lemma insert_head_Permutation l j x y :
  l !! j = Some y -> y :: <[j:=x]> l ≡ₚ x :: l.
Proof.
  revert j. induction l as [|a l IH]; intros [|j]; simpl; try discriminate.
  - intros [= ->]. apply Permutation_swap.
  - intros Hj. rewrite (Permutation_swap a y), (IH j Hj).
    apply Permutation_swap.
Qed.

Lemma swap_Permutation l i j : swap l i j ≡ₚ l.
Proof.
  unfold swap.
  destruct (l !! i) as [x|] eqn:Hi; [|reflexivity].
  destruct (l !! j) as [y|] eqn:Hj; [|reflexivity].
  revert i j Hi Hj.
  induction l as [|a l IH]; intros [|i] [|j]; simpl; try discriminate.
  - intros [= ->] [= ->]. reflexivity.
  - intros [= ->] Hj. now apply insert_head_Permutation.
  - intros Hi [= ->]. now apply insert_head_Permutation.
  - intros Hi Hj. now rewrite (IH i j Hi Hj).
Qed.

Lemma swap_take l i j n : n <= i -> n <= j -> take n (swap l i j) = take n l.
Proof.
  intros Hi Hj. unfold swap.
  destruct (l !! i), (l !! j); try reflexivity.
  now rewrite !take_insert_ge by lia.
Qed.

Lemma swap_lookup_l l i j x y :
  i <> j -> l !! i = Some x -> l !! j = Some y -> swap l i j !! i = Some y.
Proof.
  intros Hne Hi Hj. unfold swap. rewrite Hi, Hj.
  rewrite list_lookup_insert_ne by congruence.
  apply list_lookup_insert_eq. eauto using lookup_lt_Some.
Qed.

Lemma swap_lookup_r l i j x y :
  l !! i = Some x -> l !! j = Some y -> swap l i j !! j = Some x.
Proof.
  intros Hi Hj. unfold swap. rewrite Hi, Hj.
  apply list_lookup_insert_eq. rewrite length_insert. eauto using lookup_lt_Some.
Qed.

Lemma swap_lookup_other l i j k :
  k <> i -> k <> j -> swap l i j !! k = l !! k.
Proof.
  intros Hi Hj. unfold swap.
  destruct (l !! i), (l !! j); try reflexivity.
  now rewrite !list_lookup_insert_ne by congruence.
Qed.

Lemma take_eq_drop_Permutation l1 l2 n :
  take n l2 = take n l1 -> l2 ≡ₚ l1 -> drop n l2 ≡ₚ drop n l1.
Proof.
  intros Ht Hp.
  rewrite <- (take_drop n l2), <- (take_drop n l1), Ht in Hp.
  now apply Permutation_app_inv_l in Hp.
Qed.

Lemma fold_left_Permutation {B : Type}
    (f : list (@MemorySearchResult F) -> B -> list (@MemorySearchResult F))
    (js : list B) l :
  (forall l' j, f l' j ≡ₚ l') -> fold_left f js l ≡ₚ l.
Proof.
  intros Hf. revert l. induction js as [|j js IH]; intros l; simpl; [reflexivity|].
  now rewrite IH, Hf.
Qed.

Lemma sort_step_Permutation i l j : sort_step i l j ≡ₚ l.
Proof.
  unfold sort_step. destruct (l !! j), (l !! i); try reflexivity.
  destruct (f_gtb _ _); [apply swap_Permutation | reflexivity].
Qed.

(** The sort rearranges and neither drops nor adds a result. *)
Lemma sort_by_score_Permutation l : sort_by_score l ≡ₚ l.
Proof.
  unfold sort_by_score. apply fold_left_Permutation. intros l' i.
  unfold sort_inner. apply fold_left_Permutation. intros l'' j.
  apply sort_step_Permutation.
Qed.

Lemma sort_by_score_length l : length (sort_by_score l) = length l.
Proof. apply Permutation_length, sort_by_score_Permutation. Qed.

Context `{!ScoreOrder F}.

(** One pass of the inner loop, over [j = i+1 .. i+c]: the slice keeps
    its length, its elements and its first [i] positions, and nothing in
    positions [i+1 .. i+c] outranks position [i]. *)
Lemma sort_inner_run (i : nat) l (c : nat) :
  let l' := fold_left (sort_step i) (seq (S i) c) l in
  length l' = length l /\ l' ≡ₚ l /\ take i l' = take i l
  /\ forall q x y, i < q < S i + c ->
       l' !! i = Some x -> l' !! q = Some y -> not_above x y.
Proof.
  induction c as [|c IH]; cbn zeta.
  - simpl. repeat split; try reflexivity. intros; lia.
  - rewrite seq_S, fold_left_app. cbn [fold_left].
    set (l1 := fold_left (sort_step i) (seq (S i) c) l) in *.
    destruct IH as (Hlen & Hperm & Htake & Hdom).
    remember (S i + c) as j eqn:Ej.
    unfold sort_step.
    destruct (l1 !! j) as [rj|] eqn:Hj;
      [destruct (l1 !! i) as [ri|] eqn:Hi|].
    + destruct (f_gtb (Score rj) (Score ri)) eqn:Hgt.
      * repeat split.
        -- now rewrite swap_length.
        -- now rewrite swap_Permutation.
        -- rewrite swap_take by lia. exact Htake.
        -- intros q x y Hq Hx Hy.
           rewrite (swap_lookup_l l1 i j ri rj) in Hx by (assumption || lia).
           injection Hx as <-.
           destruct (decide (q = j)) as [->|Hne].
           ++ rewrite (swap_lookup_r l1 i j ri rj) in Hy by assumption.
              injection Hy as <-.
              unfold not_above, f_gtb in *.
              destruct (f_ltb (Score rj) (Score ri)) eqn:Hlt; [|reflexivity].
              pose proof (f_ltb_trans _ _ _ Hgt Hlt) as Hbad.
              now rewrite f_ltb_irrefl in Hbad.
           ++ rewrite swap_lookup_other in Hy by lia.
              assert (Hqy : not_above ri y)
                by (apply (Hdom q); first [lia | assumption | congruence]).
              unfold not_above, f_gtb in *.
              destruct (f_ltb (Score rj) (Score y)) eqn:Hlt; [|reflexivity].
              pose proof (f_ltb_trans _ _ _ Hgt Hlt) as Hbad. congruence.
      * repeat split; try assumption.
        intros q x y Hq Hx Hy.
        destruct (decide (q = j)) as [->|Hne].
        -- rewrite Hi in Hx. rewrite Hj in Hy.
           injection Hx as <-. injection Hy as <-. exact Hgt.
        -- apply (Hdom q); first [lia | assumption | congruence].
    + repeat split; try assumption.
      intros q x y Hq Hx Hy. congruence.
    + repeat split; try assumption.
      intros q x y Hq Hx Hy.
      destruct (decide (q = j)) as [->|Hne]; [congruence|].
      apply (Hdom q); first [lia | assumption | congruence].
Qed.

Lemma sort_inner_spec (i : nat) l :
  let l' := sort_inner i l in
  length l' = length l /\ l' ≡ₚ l /\ take i l' = take i l
  /\ forall q x y, i < q ->
       l' !! i = Some x -> l' !! q = Some y -> not_above x y.
Proof.
  cbn zeta. unfold sort_inner.
  destruct (sort_inner_run i l (length l - S i)) as (Hlen & Hperm & Htake & Hdom).
  repeat split; try assumption.
  intros q x y Hq Hx Hy. apply (Hdom q); try assumption.
  apply lookup_lt_Some in Hy. rewrite Hlen in Hy. lia.
Qed.

(** The outer loop, over [i = 0 .. k-1]: nothing outranks an element of
    the first [k] positions from further right. *)
Lemma sort_outer_run l (k : nat) :
  let l' := fold_left (fun r i => sort_inner i r) (seq 0 k) l in
  length l' = length l /\ l' ≡ₚ l
  /\ forall p q x y, p < k -> p < q ->
       l' !! p = Some x -> l' !! q = Some y -> not_above x y.
Proof.
  induction k as [|k IH]; cbn zeta.
  - simpl. repeat split; try reflexivity. intros; lia.
  - rewrite seq_S, fold_left_app. cbn [fold_left]. rewrite Nat.add_0_l.
    set (l1 := fold_left (fun r i => sort_inner i r) (seq 0 k) l) in *.
    destruct IH as (Hlen & Hperm & Hdom).
    destruct (sort_inner_spec k l1) as (Hlen2 & Hperm2 & Htake2 & Hdom2).
    set (l2 := sort_inner k l1) in *.
    repeat split.
    + congruence.
    + now rewrite Hperm2.
    + intros p q x y Hp Hq Hx Hy.
      destruct (decide (p = k)) as [->|Hne]; [now apply (Hdom2 q)|].
      assert (Hpk : p < k) by lia.
      assert (Hx1 : l1 !! p = Some x).
      { rewrite <- (lookup_take_lt l1 k p), <- Htake2, lookup_take_lt; assumption. }
      assert (Hdrop : drop (S p) l2 ≡ₚ drop (S p) l1).
      { apply take_eq_drop_Permutation; [|exact Hperm2].
        rewrite <- (Nat.min_l (S p) k) by lia.
        now rewrite <- !take_take, Htake2. }
      assert (Hin : y ∈ drop (S p) l1).
      { rewrite <- Hdrop. apply list_elem_of_lookup. exists (q - S p).
        rewrite lookup_drop. rewrite <- Hy. f_equal. lia. }
      apply list_elem_of_lookup in Hin as [q' Hq'].
      rewrite lookup_drop in Hq'.
      apply (Hdom p (S p + q')); [lia | lia | assumption | assumption].
Qed.

(** After the sort no result is outranked by a later one. *)
Lemma sort_by_score_descending l (p q : nat) x y :
  p < q -> sort_by_score l !! p = Some x -> sort_by_score l !! q = Some y ->
  not_above x y.
Proof.
  intros Hpq Hx Hy.
  destruct (sort_outer_run l (length l - 1)) as (Hlen & _ & Hdom).
  apply (Hdom p q); try assumption.
  apply lookup_lt_Some in Hy. unfold sort_by_score in Hy. rewrite Hlen in Hy. lia.
Qed.

Lemma pairwise_StronglySorted (R : relation (@MemorySearchResult F)) l :
  (forall p q x y, p < q -> l !! p = Some x -> l !! q = Some y -> R x y) ->
  StronglySorted R l.
Proof.
  induction l as [|a l IH]; intros Hpair; constructor.
  - apply IH. intros p q x y Hpq Hx Hy. now apply (Hpair (S p) (S q)); [lia| |].
  - apply Forall_forall. intros y [q Hq]%list_elem_of_lookup.
    now apply (Hpair 0 (S q)); [lia| |].
Qed.

End SortFacts.

(** ** The store: what each operation does to the table *)

Section StoreFacts.
Context {F : Type} `{Float32 F}.
Variable T : GoStr.CaseTable.
Import GoStr Regexp Canonical UuidFacts.

Implicit Types s : @MemoryStore F.

Lemma with_db_same s : with_db s (db s) = s.
Proof. destruct s; reflexivity. Qed.

(** [Store] either fails and leaves the store as it was, or appends one
    row: the entry it returns. *)
Lemma Store_cases s newID now text importance category sessionKey :
  (exists err,
      Store s newID now text importance category sessionKey = (Err err, s))
  \/ (exists vector,
        Embed (embedder s) text = Ok vector
        /\ let entry :=
             {| ID := newID; Text := text; Vector := vector;
                Importance := importance;
                Category := if isValidCategory s category then category
                            else "other"%string;
                SessionKey := sessionKey; CreatedAt := now |} in
           Store s newID now text importance category sessionKey
           = (Ok entry, with_db s (db s ++ [row_of_entry entry]))).
Proof.
  unfold Store. destruct (Embed (embedder s) text) as [vector|err].
  - destruct (negb (forallb f_finite vector)); [left; eauto|].
    destruct (existsb _ (db s)); [left; eauto|].
    right. exists vector. split; reflexivity.
  - left; eauto.
Qed.

Lemma Capture_cases s newID now text sessionKey :
  Capture T s newID now text sessionKey = (Ok None, s)
  \/ (exists r, Capture T s newID now text sessionKey = (r, s)
                /\ (Store s newID now text (capture_importance T text)
                          (DetectCategory T text) sessionKey).2 = s)
  \/ (exists entry,
        ShouldCapture text = true
        /\ Store s newID now text (capture_importance T text)
                 (DetectCategory T text) sessionKey
           = (Ok entry, with_db s (db s ++ [row_of_entry entry]))
        /\ Capture T s newID now text sessionKey
           = (Ok (Some entry), with_db s (db s ++ [row_of_entry entry]))).
Proof.
  unfold Capture. destruct (ShouldCapture text) eqn:Hsc; cbn [negb]; [|now left].
  right.
  destruct (Store_cases s newID now text (capture_importance T text)
              (DetectCategory T text) sessionKey)
    as [[err Hs] | (vector & _ & Hs)]; cbn zeta in Hs; rewrite Hs.
  - left. eauto.
  - right. eauto.
Qed.

Lemma filter_length_eq {A : Type} (P : A -> Prop) `{!forall x, Decision (P x)}
    (l : list A) :
  length (filter P l) = length l -> filter P l = l.
Proof.
  induction l as [|a l IH]; [reflexivity|].
  rewrite filter_cons. destruct (decide (P a)); cbn [length].
  - intros [= Hl]. now rewrite IH.
  - pose proof (length_filter P l). lia.
Qed.

Lemma filter_all {A : Type} (P : A -> Prop) `{!forall x, Decision (P x)}
    (l : list A) :
  Forall P l -> filter P l = l.
Proof.
  induction 1 as [|a l Ha _ IH]; [reflexivity|].
  rewrite filter_cons. destruct (decide (P a)); [now rewrite IH | contradiction].
Qed.

(** The three outcomes of [Delete]. *)
Lemma Delete_invalid s id :
  canonical_uuid id = false ->
  Delete T s id = (Some (Errorf "invalid memory ID format" id), s).
Proof.
  intros Hc. unfold Delete. now rewrite uuidRegex_canonical, Hc.
Qed.

Lemma Delete_absent s id :
  canonical_uuid id = true ->
  Forall (fun r => row_id r <> id) (db s) ->
  Delete T s id = (Some (Errorf "memory not found" id), s).
Proof.
  intros Hc Habs. unfold Delete. rewrite uuidRegex_canonical, Hc. cbn [negb].
  rewrite (filter_all _ _ Habs), Nat.sub_diag. cbn.
  now rewrite with_db_same.
Qed.

Lemma Delete_present s id :
  canonical_uuid id = true ->
  Exists (fun r => row_id r = id) (db s) ->
  Delete T s id = (None, with_db s (filter (fun r => row_id r <> id) (db s))).
Proof.
  intros Hc Hex. unfold Delete. rewrite uuidRegex_canonical, Hc. cbn [negb].
  destruct (Nat.eqb_spec (length (db s)
              - length (filter (fun r => row_id r <> id) (db s))) 0)
    as [Hz|Hnz]; [|reflexivity].
  exfalso.
  pose proof (length_filter (fun r : @Row F => row_id r <> id) (db s)) as Hle.
  assert (Hall : filter (fun r : @Row F => row_id r <> id) (db s) = db s)
    by (apply filter_length_eq; lia).
  apply Exists_exists in Hex as (r & Hin & Hr).
  rewrite <- Hall in Hin. apply list_elem_of_filter in Hin as [Hne _].
  contradiction.
Qed.

(** Whatever [Delete] answers, the table keeps at most the rows it had,
    and none under [id] when the identifier was well formed. *)
Lemma Delete_db s id :
  db (Delete T s id).2 = db s
  \/ db (Delete T s id).2 = filter (fun r => row_id r <> id) (db s).
Proof.
  unfold Delete. destruct (negb _); [now left|].
  destruct (_ =? _)%nat; now right.
Qed.

Lemma score_rows_acc queryVector minScore rows acc :
  fold_left
    (fun results r =>
       match row_vector r with
       | None => results
       | Some v =>
         let score := cosineSimilarity queryVector v in
         if f_geb score minScore
         then results ++ [{| Entry := entry_of_row r v; Score := score |}]
         else results
       end)
    rows acc
  = acc ++ flat_map (scored queryVector minScore) rows.
Proof.
  revert acc. induction rows as [|r rows IH]; intros acc; cbn [fold_left flat_map].
  - now rewrite app_nil_r.
  - rewrite IH. unfold scored at 2.
    destruct (row_vector r) as [v|]; [|reflexivity].
    cbn zeta. destruct (f_geb _ _); [|reflexivity].
    now rewrite <- app_assoc.
Qed.

Lemma score_rows_flat_map queryVector minScore rows :
  score_rows queryVector minScore rows
  = flat_map (scored queryVector minScore) rows.
Proof. unfold score_rows. now rewrite score_rows_acc. Qed.

Lemma insert_recent_Permutation (r : @Row F) l : insert_recent r l ≡ₚ r :: l.
Proof.
  induction l as [|x l IH]; simpl; [reflexivity|].
  destruct (_ <=? _)%Z; [reflexivity|].
  rewrite IH. apply Permutation_swap.
Qed.

Lemma order_by_created_desc_Permutation (rows : list (@Row F)) :
  order_by_created_desc rows ≡ₚ rows.
Proof.
  unfold order_by_created_desc.
  rewrite <- (app_nil_r rows) at 2. generalize (@nil (@Row F)).
  induction rows as [|r rows IH]; intros acc; cbn [fold_left]; [reflexivity|].
  rewrite IH, insert_recent_Permutation.
  cbn [app]. symmetry. apply Permutation_middle.
Qed.

Lemma recent_window_subset (rows : list (@Row F)) r :
  r ∈ recent_window rows -> r ∈ rows.
Proof.
  unfold recent_window. intros Hin%subseteq_take.
  now rewrite order_by_created_desc_Permutation in Hin.
Qed.

(** What [Search] returns when the query embeds: a prefix of the sorted
    candidates. *)
Lemma Search_ok s query limit minScore queryVector results :
  Embed (embedder s) query = Ok queryVector ->
  Search s query limit minScore = Ok results ->
  exists n,
    results = take n (sort_by_score
                (score_rows queryVector (effective_minScore s minScore)
                            (recent_window (db s)))).
Proof.
  intros He. unfold Search. rewrite He. cbn zeta.
  set (sorted := sort_by_score _).
  destruct (_ >? _)%Z.
  - destruct (_ <? _)%Z; [discriminate|]. intros [= <-]. eauto.
  - intros [= <-]. exists (length sorted). now rewrite take_ge.
Qed.

(** Every result is a row of the table, decoded. *)
Lemma Search_results_rows s query limit minScore results res :
  Search s query limit minScore = Ok results ->
  res ∈ results ->
  exists r, r ∈ db s /\ ID (Entry res) = row_id r
            /\ Category (Entry res) = row_category r.
Proof.
  intros Hs Hin.
  destruct (Embed (embedder s) query) as [queryVector|err] eqn:He.
  - destruct (Search_ok _ _ _ _ _ _ He Hs) as [n ->].
    apply subseteq_take in Hin.
    rewrite sort_by_score_Permutation, score_rows_flat_map in Hin.
    apply list_elem_of_In, in_flat_map in Hin as (r & Hr & Hres).
    exists r. split; [apply recent_window_subset; now apply list_elem_of_In|].
    unfold scored in Hres. destruct (row_vector r) as [v|]; [|destruct Hres].
    cbn zeta in Hres. destruct (f_geb _ _); [|destruct Hres].
    destruct Hres as [<- | []]. split; reflexivity.
  - unfold Search in Hs. rewrite He in Hs. discriminate.
Qed.

(** ** Invariants of the table under the operations *)

Lemma apply_op_db s (o : Op F) :
  db (apply_op T s o) = db s
  \/ (exists entry : @MemoryEntry F,
        db (apply_op T s o) = db s ++ [row_of_entry entry]
        /\ new_id o = Some (ID entry)
        /\ Category entry
           = (if isValidCategory s (Category entry) then Category entry
              else "other"%string)
        /\ (isValidCategory s (Category entry) = true
            \/ Category entry = "other"%string))
  \/ (exists id, o = OpDelete id
                 /\ db (apply_op T s o) = filter (fun r => row_id r <> id) (db s)).
Proof.
  destruct o as [newID now text importance category sessionKey
                |newID now text sessionKey | id]; cbn [apply_op new_id].
  - destruct (Store_cases s newID now text importance category sessionKey)
      as [[err Hs] | (vector & _ & Hs)]; cbn zeta in Hs; rewrite Hs; cbn [snd].
    + now left.
    + right; left. eexists. split; [reflexivity|]. split; [reflexivity|].
      cbn [Category]. destruct (isValidCategory s category) eqn:Hv.
      * rewrite Hv. auto.
      * destruct (isValidCategory s "other"); auto.
  - destruct (Capture_cases s newID now text sessionKey)
      as [Hn | [(r & Hr & _) | (entry & _ & Hst & Hc)]].
    + rewrite Hn. now left.
    + rewrite Hr. now left.
    + rewrite Hc. cbn [snd]. right; left.
      destruct (Store_cases s newID now text (capture_importance T text)
                  (DetectCategory T text) sessionKey)
        as [[err Hs] | (vector & _ & Hs)]; cbn zeta in Hs; rewrite Hs in Hst.
      * discriminate.
      * injection Hst as <-. eexists. split; [reflexivity|]. split; [reflexivity|].
        cbn [Category].
        destruct (isValidCategory s (DetectCategory T text)) eqn:Hv.
        -- rewrite Hv. auto.
        -- destruct (isValidCategory s "other"); auto.
  - destruct (Delete_db s id) as [Hd|Hd]; [now left|].
    right; right. eauto.
Qed.

Lemma apply_op_categories s (o : Op F) : categories (apply_op T s o) = categories s.
Proof.
  destruct o as [newID now text importance category sessionKey
                |newID now text sessionKey | id]; cbn [apply_op].
  - destruct (Store_cases s newID now text importance category sessionKey)
      as [[err Hs] | (vector & _ & Hs)]; cbn zeta in Hs; now rewrite Hs.
  - destruct (Capture_cases s newID now text sessionKey)
      as [Hn | [(r & Hr & _) | (entry & _ & _ & Hc)]];
      [now rewrite Hn | now rewrite Hr | now rewrite Hc].
  - unfold Delete. destruct (negb _); [reflexivity|].
    destruct (_ =? _)%nat; reflexivity.
Qed.

(** A property of rows that every inserted row has, given what its
    identifier and category are, holds of the whole table for ever. *)
Lemma run_rows_invariant (P : @Row F -> Prop) (ops : list (Op F)) s :
  (forall s1 (entry : @MemoryEntry F) o,
      categories s1 = categories s -> In o ops ->
      new_id o = Some (ID entry) ->
      (isValidCategory s1 (Category entry) = true
       \/ Category entry = "other"%string) ->
      P (row_of_entry entry)) ->
  Forall P (db s) -> Forall P (db (run T ops s)).
Proof.
  unfold run. revert s. induction ops as [|o ops IH]; intros s Hnew Hs; [exact Hs|].
  cbn [fold_left]. apply IH.
  - intros s1 entry o' Hcat Hin. apply Hnew; [|now right].
    now rewrite Hcat, apply_op_categories.
  - destruct (apply_op_db s o)
      as [-> | [(entry & -> & Hid & _ & Hcat) | (id & _ & ->)]].
    + exact Hs.
    + apply Forall_app. split; [exact Hs|]. constructor; [|constructor].
      apply (Hnew s entry o); [reflexivity | now left | exact Hid | exact Hcat].
    + apply Forall_forall. intros r [_ Hr]%list_elem_of_filter.
      rewrite Forall_forall in Hs. now apply Hs.
Qed.

End StoreFacts.

(** ** The order of binary32 and of the reals *)

Module B32Facts.

Lemma SFltb_irrefl (x : spec_float) : SFltb x x = false.
Proof.
  unfold SFltb, SFcompare.
  destruct x as [s|s| |s m e]; try destruct s; try reflexivity;
    rewrite Z.compare_refl;
    change (Pos.compare_cont Eq m m) with (Pos.compare m m);
    now rewrite Pos.compare_refl.
Qed.

Lemma SFltb_trans (x y z : spec_float) :
  SFltb x y = true -> SFltb y z = true -> SFltb x z = true.
Proof.
  unfold SFltb, SFcompare.
  destruct x as [s1|s1| |s1 m1 e1], y as [s2|s2| |s2 m2 e2],
           z as [s3|s3| |s3 m3 e3];
    try destruct s1; try destruct s2; try destruct s3;
    try discriminate; try reflexivity;
    change (Pos.compare_cont Eq) with Pos.compare;
    repeat match goal with
           | |- context [(?a ?= ?b)%Z] => destruct (Z.compare_spec a b)
           | |- context [(?a ?= ?b)%positive] => destruct (Pos.compare_spec a b)
           end;
    cbn [CompOpp]; try discriminate; try reflexivity; intros _ _; exfalso; lia.
Qed.

End B32Facts.

#[export] Instance b32_order : ScoreOrder spec_float.
Proof.
  split; [exact B32Facts.SFltb_trans | exact B32Facts.SFltb_irrefl].
Qed.

Module RealFacts.
Import RealArith.
Local Open Scope R_scope.




End RealFacts.


(** ** Vectors in exact arithmetic *)

Module ExactVectors.
Import RealArith RealFacts.
Local Open Scope R_scope.










End ExactVectors.

(** ** The embedding providers *)

Section EmbedderFacts.
Context {F : Type} `{Float32 F}.
Variable T : GoStr.CaseTable.
Import GoStr.

(** The vocabulary sends a word to a position where the list has it. *)
Lemma build_vocab_lookup (words : list string) (w : string) (i : nat) :
  build_vocab words !! w = Some i -> words !! i = Some w.
Proof.
  unfold build_vocab.
  assert (Hps : Forall (fun iw : nat * string => words !! iw.1 = Some iw.2)
                       (combine (seq 0 (length words)) words)).
  { apply Forall_forall. intros [j x] Hin.
    apply list_elem_of_lookup in Hin as [k Hk].
    change (combine (seq 0 (length words)) words)
      with (zip (seq 0 (length words)) words) in Hk.
    apply lookup_zip_with_Some in Hk as (j' & x' & [= <- <-] & Hj & Hx).
    apply lookup_seq in Hj as [-> _]. exact Hx. }
  assert (Hinit : forall w i, (∅ : gmap string nat) !! w = Some i -> words !! i = Some w)
    by (intros w' i'; rewrite lookup_empty; discriminate).
  revert Hinit. generalize (∅ : gmap string nat). revert w i.
  induction Hps as [|[j x] ps Hjx _ IH]; intros w i m Hm; cbn [fold_left].
  - apply Hm.
  - apply IH. intros w' i'. cbn [fst snd].
    destruct (decide (x = w')) as [->|Hne].
    + rewrite lookup_insert_eq. intros [= <-]. exact Hjx.
    + rewrite lookup_insert_ne by exact Hne. apply Hm.
Qed.

Lemma build_vocab_inj (words : list string) (w1 w2 : string) (i : nat) :
  build_vocab words !! w1 = Some i -> build_vocab words !! w2 = Some i -> w1 = w2.
Proof.
  intros H1%build_vocab_lookup H2%build_vocab_lookup. congruence.
Qed.

(** The second loop of [SimpleEmbedder.Embed] gives the same vector in
    whatever order it meets the entries of the map. *)
Lemma fill_vector_Permutation (e : SimpleEmbedder) (nwords : nat)
    (l1 l2 : list (string * nat)) (vector : list F) :
  (forall w1 w2 i, se_vocab e !! w1 = Some i -> se_vocab e !! w2 = Some i -> w1 = w2) ->
  l1 ≡ₚ l2 -> NoDup (l1.*1) ->
  fill_vector e nwords l1 vector = fill_vector e nwords l2 vector.
Proof.
  intros Hinj Hperm. revert vector.
  induction Hperm as [|x l l' _ IH|x y l|l l' l'' Hp1 IH1 Hp2 IH2];
    intros vector Hnd.
  - reflexivity.
  - cbn [fmap list_fmap] in Hnd. apply NoDup_cons in Hnd as [_ Hnd].
    unfold fill_vector. cbn [fold_left]. now apply IH.
  - cbn [fmap list_fmap] in Hnd.
    apply NoDup_cons in Hnd as [Hy _].
    assert (Hne : x.1 <> y.1) by (intros Heq; apply Hy; rewrite Heq; left).
    unfold fill_vector. cbn [fold_left]. f_equal.
    destruct (se_vocab e !! y.1) as [iy|] eqn:Ey,
             (se_vocab e !! x.1) as [ix|] eqn:Ex; try reflexivity.
    apply list_insert_insert_ne. intros Heq. subst. apply Hne.
    eapply Hinj; eassumption.
  - rewrite IH1 by exact Hnd. apply IH2. now rewrite <- Hp1.
Qed.

Lemma map_to_list_range_order : range_order map_to_list.
Proof. intros m. reflexivity. Qed.

Lemma SimpleEmbedder_Embed_order (order1 order2 : gmap string nat -> list (string * nat))
    (words : list string) (dims : Z) (text : string) :
  range_order order1 -> range_order order2 ->
  let e := {| se_vocab := build_vocab words; se_dims := dims |} in
  SimpleEmbedder_Embed_in T order1 e text = SimpleEmbedder_Embed_in T order2 e text.
Proof.
  intros H1 H2 e. unfold SimpleEmbedder_Embed_in. do 2 f_equal.
  apply fill_vector_Permutation.
  - intros w1 w2 i. apply build_vocab_inj.
  - now rewrite (H1 _), (H2 _).
  - rewrite (H1 _). apply NoDup_fst_map_to_list.
Qed.


(** Without a script beside the model, [LocalEmbedder.Embed] is the hash
    fallback, whatever else the outside looks like. *)
Lemma LocalEmbedder_Embed_fallback (env : Env F) (e : LocalEmbedder) (text : string) :
  stat env (path_join env [path_dir env (le_modelPath e); "embed.py"%string])
  <> StatOk ->
  LocalEmbedder_Embed T env e text = Ok (fallbackEmbedding T e text).
Proof.
  intros Hno. unfold LocalEmbedder_Embed.
  destruct (stat env _); [contradiction | reflexivity | reflexivity].
Qed.

End EmbedderFacts.

(** ** Running [Store] and [Capture] *)

Section RunFacts.
Context {F : Type} `{Float32 F}.
Variable T : GoStr.CaseTable.

Implicit Types s : @MemoryStore F.

(** [Store] succeeds when the text embeds into finite numbers and the
    identifier is new. *)
Lemma Store_ok s newID now text importance category sessionKey vector :
  Embed (embedder s) text = Ok vector ->
  forallb f_finite vector = true ->
  existsb (fun r => String.eqb (row_id r) newID) (db s) = false ->
  let entry :=
    {| ID := newID; Text := text; Vector := vector; Importance := importance;
       Category := if isValidCategory s category then category else "other"%string;
       SessionKey := sessionKey; CreatedAt := now |} in
  Store s newID now text importance category sessionKey
  = (Ok entry, with_db s (db s ++ [row_of_entry entry])).
Proof.
  intros He Hfin Hnew. unfold Store. now rewrite He, Hfin, Hnew.
Qed.

Lemma Capture_ok s newID now text sessionKey vector :
  ShouldCapture text = true ->
  Embed (embedder s) text = Ok vector ->
  forallb f_finite vector = true ->
  existsb (fun r => String.eqb (row_id r) newID) (db s) = false ->
  let entry :=
    {| ID := newID; Text := text; Vector := vector;
       Importance := capture_importance T text;
       Category := if isValidCategory s (DetectCategory T text)
                   then DetectCategory T text else "other"%string;
       SessionKey := sessionKey; CreatedAt := now |} in
  Capture T s newID now text sessionKey
  = (Ok (Some entry), with_db s (db s ++ [row_of_entry entry])).
Proof.
  intros Hsc He Hfin Hnew. unfold Capture. rewrite Hsc. cbn [negb].
  now rewrite (Store_ok s newID now text _ _ sessionKey vector He Hfin Hnew).
Qed.

End RunFacts.

(* ================================================================= *)
(** * The scenarios of the specification, evaluated                   *)
(* ================================================================= *)

(** The examples the specification lists as testable, run on the
    embedding in binary32 with the store of [Fixtures]. *)
Module Scenarios.
Import GoStr Regexp Fixtures.

Example scenario_accepts_password :
  ShouldCapture "I always remember my password is 1234" = true.
Proof. vm_compute. reflexivity. Qed.

Example scenario_rejects_four_emoji :
  emojiCount four_emoji = 4 /\ ShouldCapture four_emoji = false.
Proof. split; vm_compute; reflexivity. Qed.

Example scenario_category_preference :
  DetectCategory plain_table "I prefer dark roast coffee" = "preference"%string.
Proof. vm_compute. reflexivity. Qed.

Example scenario_category_decision :
  DetectCategory plain_table "We decided to use the new plan" = "decision"%string.
Proof. vm_compute. reflexivity. Qed.

(** One memory stored, then searched for: it is the only result, with a
    score of about 0.397 under the hash fallback. *)
Example scenario_store_then_search :
  match Search one_memory "what coffee does the user like" 5 (f_lit 3 10) with
  | Ok [r] =>
    ID (Entry r) = id1
    /\ Text (Entry r) = "User prefers dark roast coffee over light roast"%string
    /\ Score r = S754_finite false 13334398 (-25)
    /\ f_gtb (Score r) (f_lit 3 10) = true
  | _ => False
  end.
Proof. vm_compute. repeat split; reflexivity. Qed.

(** The recall tool on the same store. *)
Example scenario_recall_listing :
  ForLLM (MemoryTool_Execute one_memory
            (<["query" := AnyString "User prefers dark roast coffee"]> ∅))
  = ("Found 1 relevant memories:" ++ newline ++ newline
     ++ "1. [preference] (score: 0.84) "
     ++ "User prefers dark roast coffee over light roast" ++ newline)%string.
Proof. vm_compute. reflexivity. Qed.

(** Two memories with the same text: the same vector, the same score, the
    later one first. *)
Example scenario_same_text_twice :
  let rows :=
    db (run plain_table
          [OpStore id1 1 "I like python" (f_lit 5 10) "preference" "s1";
           OpStore id2 2 "I like python" (f_lit 5 10) "preference" "s1"]
          local_store) in
  match rows, Search (with_db local_store rows) "I like python" 5 (f_lit 3 10) with
  | [row1; row2], Ok [r1; r2] =>
    row_vector row1 = row_vector row2
    /\ ID (Entry r1) = id2 /\ ID (Entry r2) = id1
    /\ Score r1 = Score r2
  | _, _ => False
  end.
Proof. vm_compute. repeat split; reflexivity. Qed.

End Scenarios.

(* ================================================================= *)
(** * The claims                                                      *)
(* ================================================================= *)

Section Claims.
Import GoStr Regexp Canonical GoStrFacts UuidFacts Fixtures.

(** The store of the examples is the one [NewMemoryStore] makes, and its
    provider embeds by the hash fallback. *)
Lemma local_store_constructed :
  NewMemoryStore plain_table offline local_config [] = Ok local_store.
Proof. reflexivity. Qed.

Lemma local_store_embeds (text : string) :
  Embed (embedder local_store) text
  = Ok (fallbackEmbedding plain_table local_embedder text).
Proof.
  apply (LocalEmbedder_Embed_fallback plain_table offline). vm_compute. discriminate.
Qed.

(** *** C1: the importance [Capture] assigns *)

(** C1 (as amended).  When [Capture] stores an entry, [ShouldCapture]
    accepted the text and the importance is 0.7 if the text matches
    [always|never]; otherwise 0.8 if its lower-cased form contains
    "important"; otherwise 0.5.  The two assignments are applied in
    sequence, so when both triggers match the later one, 0.7, stays.  The
    entry is the row appended to the table. *)
Theorem Capture_importance_rule {F : Type} `{Float32 F} (T : CaseTable)
    (s s' : @MemoryStore F) (newID : string) (now : Z) (text sessionKey : string)
    (entry : @MemoryEntry F) :
  Capture T s newID now text sessionKey = (Ok (Some entry), s') ->
  ShouldCapture text = true
  /\ Importance entry
     = (if MatchString emphasis text then f_lit 7 10
        else if Contains (ToLower T text) "important" then f_lit 8 10
        else f_lit 5 10)
  /\ db s' = db s ++ [row_of_entry entry].
Proof.
  intros Hc.
  destruct (Capture_cases T s newID now text sessionKey)
    as [Hn | [(r & Hr & Hs) | (e & Hsc & Hs & Hcap)]].
  - rewrite Hn in Hc. discriminate.
  - unfold Capture in Hc, Hr.
    destruct (ShouldCapture text); cbn [negb] in *; [|discriminate].
    destruct (Store_cases s newID now text (capture_importance T text)
                (DetectCategory T text) sessionKey)
      as [[err Hst] | (vector & _ & Hst)]; cbn zeta in Hst; rewrite Hst in *.
    + discriminate.
    + cbn [snd] in Hs. injection Hc as <- <-.
      split; [reflexivity|]. split; [|reflexivity].
      cbn [Importance]. unfold capture_importance.
      destruct (MatchString emphasis text); reflexivity.
  - rewrite Hcap in Hc. injection Hc as <- <-.
    split; [exact Hsc|]. split; [|reflexivity].
    destruct (Store_cases s newID now text (capture_importance T text)
                (DetectCategory T text) sessionKey)
      as [[err Hst] | (vector & _ & Hst)]; cbn zeta in Hst; rewrite Hst in Hs.
    + discriminate.
    + injection Hs as <-. cbn [Importance]. unfold capture_importance.
      destruct (MatchString emphasis text); reflexivity.
Qed.

Lemma Capture_importance_rule_witness :
  exists entry s',
    Capture plain_table local_store id1 1 both_triggers "s1"
    = (Ok (Some entry), s')
    /\ Importance entry = f_lit 7 10
    /\ db s' = [row_of_entry entry].
Proof.
  assert (Hfin : forallb f_finite
                   (fallbackEmbedding (F := spec_float) plain_table local_embedder
                      both_triggers)
                 = true) by (vm_compute; reflexivity).
  pose proof (Capture_ok plain_table local_store id1 1 both_triggers "s1" _
                ltac:(vm_compute; reflexivity) (local_store_embeds _)
                Hfin eq_refl) as Hc.
  cbn zeta in Hc.
  eexists _, _. split; [exact Hc|].
  destruct (Capture_importance_rule _ _ _ _ _ _ _ _ Hc) as (_ & Himp & Hdb).
  split; [|exact Hdb].
  rewrite Himp. vm_compute. reflexivity.
Defined.

(** C1 fails as stated: a text that [ShouldCapture] accepts and that
    matches both triggers is stored with importance 0.7, which is below
    the 0.8 the claim gives it. *)
Lemma Capture_importance_counterexample :
  ShouldCapture both_triggers = true
  /\ Contains (ToLower plain_table both_triggers) "important" = true
  /\ MatchString emphasis both_triggers = true
  /\ (exists entry s',
        Capture plain_table local_store id1 1 both_triggers "s1"
        = (Ok (Some entry), s')
        /\ Importance entry = f_lit 7 10)
  /\ f_ltb (f_lit 7 10 : spec_float) (f_lit 8 10) = true.
Proof.
  split; [vm_compute; reflexivity|].
  split; [vm_compute; reflexivity|].
  split; [vm_compute; reflexivity|].
  split; [|vm_compute; reflexivity].
  eexists _, _. split.
  - apply (Capture_ok plain_table local_store id1 1 both_triggers "s1");
      [vm_compute; reflexivity | apply local_store_embeds
       | vm_compute; reflexivity | reflexivity].
  - vm_compute. reflexivity.
Qed.

(** *** C4: the length window of [ShouldCapture] *)

(** C4 (as amended).  [ShouldCapture] measures [len(text)], the length in
    bytes: a text of fewer than 10 or more than 500 bytes is rejected.
    Hence so is every text of more than 500 characters, and every ASCII
    text of fewer than 10 characters. *)
Theorem ShouldCapture_length_window (text : string) :
  (String.length text < 10
   \/ 500 < String.length text
   \/ 500 < RuneCount text
   \/ (is_ascii text /\ RuneCount text < 10)) ->
  ShouldCapture text = false.
Proof.
  intros Hlen.
  assert (Hbytes : String.length text < 10 \/ 500 < String.length text).
  { pose proof (RuneCount_le_length text) as Hle.
    destruct Hlen as [?|[?|[?|[Ha ?]]]]; [lia | lia | lia |].
    rewrite (RuneCount_ascii text Ha) in *. lia. }
  unfold ShouldCapture.
  destruct (Z.ltb_spec (Z.of_nat (String.length text)) 10) as [|Hge];
    [reflexivity|].
  destruct (Z.gtb_spec (Z.of_nat (String.length text)) 500) as [|Hle];
    [reflexivity|].
  lia.
Qed.

Lemma ShouldCapture_length_window_witness :
  ShouldCapture "hello" = false /\ ShouldCapture (String.concat "" (repeat "remember! " 60)) = false.
Proof.
  split.
  - apply ShouldCapture_length_window. left. vm_compute. lia.
  - apply ShouldCapture_length_window. right. left. vm_compute. lia.
Defined.

(** C4 fails as stated: a text of 7 characters, fewer than 10, is
    accepted, because its 11 bytes pass the length check and "love" is a
    trigger. *)
Lemma ShouldCapture_length_counterexample :
  RuneCount short_wide_text = 7
  /\ String.length short_wide_text = 11
  /\ ShouldCapture short_wide_text = true.
Proof. repeat split; vm_compute; reflexivity. Qed.

(** *** C5: [Delete] *)

(** C5.  [Delete] answers an identifier that is not a canonical UUID (in
    either case) with the validation error and leaves the store as it
    is; a canonical identifier that no row has, with the not-found error
    and the store as it is; a canonical identifier that a row has, with
    success, and then no [Search] returns that identifier, whatever is
    stored or deleted afterwards under other identifiers.  When the rows
    were inserted under canonical identifiers, as [uuid.New] gives them,
    every identifier in the table is canonical: deleting it succeeds. *)
Theorem Delete_contract {F : Type} `{Float32 F} (T : CaseTable)
    (s : @MemoryStore F) (id : string) :
  (canonical_uuid id = false ->
     Delete T s id = (Some (Errorf "invalid memory ID format" id), s)
     /\ is_ValidationError (Errorf "invalid memory ID format" id))
  /\ (canonical_uuid id = true ->
      Forall (fun r => row_id r <> id) (db s) ->
      Delete T s id = (Some (Errorf "memory not found" id), s)
      /\ is_NotFoundError (Errorf "memory not found" id))
  /\ (canonical_uuid id = true ->
      Exists (fun r => row_id r = id) (db s) ->
      exists s',
        Delete T s id = (None, s')
        /\ forall ops query limit minScore results,
             Forall (fun o => new_id o <> Some id) ops ->
             Search (run T ops s') query limit minScore = Ok results ->
             Forall (fun res => ID (Entry res) <> id) results)
  /\ (forall ops,
        Forall (fun o => forall i, new_id o = Some i -> canonical_uuid i = true) ops ->
        Forall (fun r => canonical_uuid (row_id r) = true) (db s) ->
        Forall (fun r => canonical_uuid (row_id r) = true) (db (run T ops s))).
Proof.
  split; [|split; [|split]].
  - intros Hc. split; [now apply Delete_invalid | now exists id].
  - intros Hc Habs. split; [now apply Delete_absent | now exists id].
  - intros Hc Hex. eexists. split; [now apply Delete_present|].
    intros ops query limit minScore results Hops Hs.
    set (s1 := with_db s (filter (fun r => row_id r <> id) (db s))) in *.
    assert (Habs : Forall (fun r => row_id r <> id) (db (run T ops s1))).
    { apply run_rows_invariant.
      - intros s2 entry o _ Hin Hid _. cbn [row_of_entry row_id].
        rewrite Forall_forall in Hops. intros <-.
        apply (Hops o); [now apply list_elem_of_In | exact Hid].
      - apply Forall_forall. intros r [Hr _]%list_elem_of_filter. exact Hr. }
    apply Forall_forall. intros res Hres.
    destruct (Search_results_rows _ _ _ _ _ _ Hs Hres) as (r & Hr & -> & _).
    rewrite Forall_forall in Habs. now apply Habs.
  - intros ops Hops Hs. apply run_rows_invariant; [|exact Hs].
    intros s2 entry o _ Hin Hid _. cbn [row_of_entry row_id].
    rewrite Forall_forall in Hops. apply (Hops o); [now apply list_elem_of_In | exact Hid].
Qed.

Lemma Delete_contract_witness :
  Delete plain_table one_memory "not-a-uuid"
  = (Some (Errorf "invalid memory ID format" "not-a-uuid"), one_memory)
  /\ Delete plain_table one_memory id2
     = (Some (Errorf "memory not found" id2), one_memory)
  /\ exists s',
       Delete plain_table one_memory id1 = (None, s')
       /\ forall results,
            Search s' "what coffee does the user like" 5 (f_lit 3 10) = Ok results ->
            Forall (fun res => ID (Entry res) <> id1) results.
Proof.
  destruct (Delete_contract plain_table one_memory "not-a-uuid") as (Ha & _).
  destruct (Delete_contract plain_table one_memory id2) as (_ & Hb & _).
  destruct (Delete_contract plain_table one_memory id1) as (_ & _ & Hc & _).
  split; [exact (proj1 (Ha ltac:(vm_compute; reflexivity)))|].
  split.
  { refine (proj1 (Hb ltac:(vm_compute; reflexivity) _)).
    vm_compute. repeat constructor. discriminate. }
  destruct (Hc ltac:(vm_compute; reflexivity)
               ltac:(vm_compute; left; reflexivity)) as (s' & Hd & Hs).
  exists s'. split; [exact Hd|].
  intros results Hr.
  exact (Hs [] _ _ _ results (Forall_nil_2 _) Hr).
Defined.

(** *** C7: a failing embedding *)

(** C7.  When the provider fails to embed the text, [Store] returns that
    failure wrapped as the embedding failure, and the store after the call
    is the store before it. *)
Theorem Store_embedding_failure {F : Type} `{Float32 F}
    (s : @MemoryStore F) (newID : string) (now : Z) (text : string)
    (importance : F) (category sessionKey : string) (err : error) :
  Embed (embedder s) text = Err err ->
  Store s newID now text importance category sessionKey
  = (Err (Wrapf "failed to generate embedding" err), s)
  /\ is_EmbeddingFailure (Wrapf "failed to generate embedding" err).
Proof.
  intros He. unfold Store. rewrite He. split; [reflexivity|].
  exists err. now left.
Qed.

Lemma Store_embedding_failure_witness :
  Store remote_store id1 1 "I prefer tea" (f_lit 5 10) "preference" "s1"
  = (Err (Wrapf "failed to generate embedding"
            (ErrorText "dial tcp: no route to host")), remote_store).
Proof.
  apply (Store_embedding_failure remote_store id1 1 "I prefer tea" (f_lit 5 10)
           "preference" "s1" (ErrorText "dial tcp: no route to host")).
  reflexivity.
Defined.

(** *** C8: categories *)

(** C8.  A store made by [NewMemoryStore] has the five categories.  When
    [Store] is given a category outside them, the entry it persists has
    the category [other]; and from a table whose rows carry categories of
    the five, no sequence of [Store], [Capture] and [Delete] calls leads to
    a row with another category. *)
Theorem Store_category_fixed_set {F : Type} `{Float32 F} (T : CaseTable) :
  (forall (s s' : @MemoryStore F) newID now text importance category sessionKey
          (entry : @MemoryEntry F),
      categories s = MemoryCategories ->
      ~ In category MemoryCategories ->
      Store s newID now text importance category sessionKey = (Ok entry, s') ->
      Category entry = "other"%string
      /\ db s' = db s ++ [row_of_entry entry]
      /\ row_category (row_of_entry entry) = "other"%string)
  /\ (forall (s : @MemoryStore F) (ops : list (Op F)),
        categories s = MemoryCategories ->
        Forall (fun r => In (row_category r) MemoryCategories) (db s) ->
        Forall (fun r => In (row_category r) MemoryCategories) (db (run T ops s)))
  /\ (forall (env : Env F) cfg (s : @MemoryStore F),
        NewMemoryStore T env cfg [] = Ok s ->
        categories s = MemoryCategories /\ db s = []).
Proof.
  split; [|split].
  - intros s s' newID now text importance category sessionKey entry Hcat Hout Hs.
    destruct (Store_cases s newID now text importance category sessionKey)
      as [[err Hs'] | (vector & _ & Hs')]; cbn zeta in Hs'; rewrite Hs' in Hs.
    + discriminate.
    + injection Hs as <- <-. cbn [Category row_of_entry row_category db with_db].
      assert (Hinv : isValidCategory s category = false).
      { apply not_true_iff_false. intros Hv. apply Hout.
        unfold isValidCategory in Hv. rewrite Hcat in Hv.
        apply existsb_exists in Hv as (c & Hc & Heq).
        apply String.eqb_eq in Heq. now subst. }
      rewrite Hinv. auto.
  - intros s ops Hcat Hs. apply run_rows_invariant; [|exact Hs].
    intros s1 entry o Hcat1 _ _ Hvalid. cbn [row_of_entry row_category].
    destruct Hvalid as [Hv | ->].
    + unfold isValidCategory in Hv. rewrite Hcat1, Hcat in Hv.
      apply existsb_exists in Hv as (c & Hc & Heq).
      apply String.eqb_eq in Heq. now subst.
    + simpl. tauto.
  - intros env cfg s. unfold NewMemoryStore.
    destruct (initEmbedder T env cfg); [|discriminate].
    intros [= <-]. split; reflexivity.
Qed.

Lemma Store_category_fixed_set_witness :
  exists entry s',
    Store local_store id1 1 "We decided to use the new plan" (f_lit 5 10)
          "bogus-category" "s1" = (Ok entry, s')
    /\ Category entry = "other"%string
    /\ db s' = [row_of_entry entry].
Proof.
  assert (Hfin : forallb f_finite
                   (fallbackEmbedding (F := spec_float) plain_table local_embedder
                      "We decided to use the new plan")
                 = true) by (vm_compute; reflexivity).
  pose proof (Store_ok local_store id1 1 "We decided to use the new plan"
                (f_lit 5 10) "bogus-category" "s1" _
                (local_store_embeds _) Hfin eq_refl) as Hs.
  cbn zeta in Hs. eexists _, _. split; [exact Hs|].
  assert (Hout : ~ In "bogus-category"%string MemoryCategories).
  { intros Hin. repeat (destruct Hin as [Hin|Hin]; [discriminate|]). exact Hin. }
  destruct (proj1 (Store_category_fixed_set plain_table) local_store
              _ _ _ _ _ _ _ _ eq_refl Hout Hs) as (Hc & Hdb & _).
  split; [exact Hc | exact Hdb].
Defined.

(** *** C10: the category parameter of the recall tool *)

(** C10.  [MemoryTool.Execute] reads the entries "query" and "limit" of
    its parameters and no other: two parameter maps that agree outside
    "category" get the same result. *)
Theorem Execute_ignores_category {F : Type} `{Float32 F}
    (s : @MemoryStore F) (params1 params2 : gmap string Any) :
  (forall k : string, k <> "category"%string -> params1 !! k = params2 !! k) ->
  MemoryTool_Execute s params1 = MemoryTool_Execute s params2.
Proof.
  intros Hsame. unfold MemoryTool_Execute.
  now rewrite (Hsame "query"%string), (Hsame "limit"%string) by discriminate.
Qed.

Lemma Execute_ignores_category_witness :
  MemoryTool_Execute one_memory
    (<["query" := AnyString "what coffee does the user like"]>
       (<["category" := AnyString "decision"]> ∅))
  = MemoryTool_Execute one_memory
      (<["query" := AnyString "what coffee does the user like"]> ∅).
Proof.
  apply Execute_ignores_category. intros k Hk.
  destruct (decide (k = "query"%string)) as [->|Hq].
  - now rewrite !lookup_insert_eq.
  - rewrite !lookup_insert_ne by congruence. reflexivity.
Defined.

(** *** C2: the order of the results *)

(** C2 (as amended).  When the query embeds and the limit in force is
    not negative, [Search] returns a list in which no result has a higher
    score than one before it; it is the first [limit] elements of a
    rearrangement of the candidates that reach the minimum score.  The
    order among results of equal score is what the exchange sort leaves,
    which need not be the order of the window. *)
Theorem Search_sorted_descending {F : Type} `{Float32 F} `{!ScoreOrder F}
    (s : @MemoryStore F) (query : string) (limit : Z) (minScore : F)
    (queryVector : list F) :
  Embed (embedder s) query = Ok queryVector ->
  (0 <= effective_limit s limit)%Z ->
  exists results sorted,
    Search s query limit minScore = Ok results
    /\ StronglySorted not_above results
    /\ sorted ≡ₚ score_rows queryVector (effective_minScore s minScore)
                            (recent_window (db s))
    /\ results = take (Z.to_nat (effective_limit s limit)) sorted.
Proof.
  intros He Hlim. unfold Search. rewrite He. cbn zeta.
  set (cands := score_rows _ _ _).
  assert (Hsorted : forall n, StronglySorted not_above (take n (sort_by_score cands))).
  { intros n. apply pairwise_StronglySorted. intros p q x y Hpq Hx Hy.
    apply lookup_take_Some in Hx as [Hx _]. apply lookup_take_Some in Hy as [Hy _].
    now apply (sort_by_score_descending cands p q). }
  exists (take (Z.to_nat (effective_limit s limit)) (sort_by_score cands)),
         (sort_by_score cands).
  split; [|split; [apply Hsorted | split; [apply sort_by_score_Permutation | reflexivity]]].
  destruct (Z.gtb_spec (Z.of_nat (length (sort_by_score cands)))
                       (effective_limit s limit)) as [Hgt|Hle].
  - destruct (Z.ltb_spec (effective_limit s limit) 0); [lia | reflexivity].
  - rewrite take_ge by lia. reflexivity.
Qed.

Lemma Search_sorted_descending_witness :
  exists results,
    Search tie_store "I like python code" 5 (f_lit 1 10) = Ok results
    /\ StronglySorted not_above results.
Proof.
  destruct (Search_sorted_descending tie_store "I like python code" 5 (f_lit 1 10) _
              (local_store_embeds _) ltac:(vm_compute; discriminate))
    as (results & sorted & Hs & Hsorted & _).
  exists results. split; [exact Hs | exact Hsorted].
Defined.

(** C2 fails as stated: the window lists the memories newest first, [id3],
    [id2], [id1]; [id2] and [id3] have the same text, so the same score, and
    [id1] scores higher.  Fetching [id1] to the front swaps it with [id3],
    and the result has the older [id2] before the newer [id3]. *)
Lemma Search_tie_order_counterexample :
  map (fun r => (row_id r, row_created_at r)) (recent_window tie_rows)
  = [(id3, 3%Z); (id2, 2%Z); (id1, 1%Z)]
  /\ match Search tie_store "I like python code" 5 (f_lit 1 10) with
     | Ok results =>
       map (fun r => (ID (Entry r), CreatedAt (Entry r), Score r)) results
       = [(id1, 1%Z, S754_finite false 8388608 (-23));
          (id2, 2%Z, S754_finite false 14307657 (-24));
          (id3, 3%Z, S754_finite false 14307657 (-24))]
     | Err _ => False
     end.
Proof. split; vm_compute; reflexivity. Qed.

(** *** C6: no match is no error *)



(** *** C3: the norm of a stored vector *)





(** *** C9: the embeddings that are functions of the text *)

(** C9.  The vocabulary-bounded provider returns the same vector in
    whatever order it ranges over its word counts; the local provider
    without a script returns the hash fallback of the text, whatever the
    outside is; so two [Store] calls with the same text under such a
    provider persist the same vector. *)
Theorem embedding_deterministic {F : Type} `{Float32 F} (T : CaseTable) :
  (forall order1 order2 text,
      range_order order1 -> range_order order2 ->
      SimpleEmbedder_Embed_in T order1 NewSimpleEmbedder text
      = SimpleEmbedder_Embed_in T order2 NewSimpleEmbedder text)
  /\ (forall (env1 env2 : Env F) e text,
        no_script env1 e -> no_script env2 e ->
        LocalEmbedder_Embed T env1 e text = Ok (fallbackEmbedding T e text)
        /\ LocalEmbedder_Embed T env2 e text = LocalEmbedder_Embed T env1 e text)
  /\ (forall (s1 s2 s1' s2' : @MemoryStore F) text
             newID1 now1 importance1 category1 sessionKey1
             newID2 now2 importance2 category2 sessionKey2
             (entry1 entry2 : @MemoryEntry F),
        same_source T (embedder s1) (embedder s2) ->
        Store s1 newID1 now1 text importance1 category1 sessionKey1 = (Ok entry1, s1') ->
        Store s2 newID2 now2 text importance2 category2 sessionKey2 = (Ok entry2, s2') ->
        Vector entry1 = Vector entry2
        /\ db s1' = db s1 ++ [row_of_entry entry1]
        /\ db s2' = db s2 ++ [row_of_entry entry2]).
Proof.
  assert (Hsimple : forall order1 order2 text,
             range_order order1 -> range_order order2 ->
             SimpleEmbedder_Embed_in T order1 NewSimpleEmbedder text
             = SimpleEmbedder_Embed_in T order2 NewSimpleEmbedder text).
  { intros order1 order2 text H1 H2.
    exact (SimpleEmbedder_Embed_order T order1 order2 commonWords _ text H1 H2). }
  split; [exact Hsimple | split].
  - intros env1 env2 e text H1 H2.
    rewrite !LocalEmbedder_Embed_fallback by assumption. split; reflexivity.
  - intros s1 s2 s1' s2' text newID1 now1 importance1 category1 sessionKey1
           newID2 now2 importance2 category2 sessionKey2 entry1 entry2 Hsrc Hs1 Hs2.
    destruct (Store_cases s1 newID1 now1 text importance1 category1 sessionKey1)
      as [[err Hs'] | (v1 & He1 & Hs')]; cbn zeta in Hs'; rewrite Hs' in Hs1;
      [discriminate|]. clear Hs'.
    destruct (Store_cases s2 newID2 now2 text importance2 category2 sessionKey2)
      as [[err Hs'] | (v2 & He2 & Hs')]; cbn zeta in Hs'; rewrite Hs' in Hs2;
      [discriminate|]. clear Hs'.
    injection Hs1 as <- <-. injection Hs2 as <- <-.
    split; [|split; reflexivity]. cbn [Vector].
    destruct Hsrc as [(o1 & o2 & Ho1 & Ho2 & Hp1 & Hp2)
                     | (env1 & env2 & e & Hn1 & Hn2 & Hp1 & Hp2)];
      rewrite Hp1 in He1; rewrite Hp2 in He2;
      cbn [Embed Simple_provider_in Local_provider] in He1, He2.
    + rewrite (Hsimple o1 o2 text Ho1 Ho2) in He1. congruence.
    + rewrite (LocalEmbedder_Embed_fallback T env1 e text Hn1) in He1.
      rewrite (LocalEmbedder_Embed_fallback T env2 e text Hn2) in He2.
      congruence.
Qed.

Lemma embedding_deterministic_witness :
  SimpleEmbedder_Embed_in (F := spec_float) plain_table
    (fun m => rev (map_to_list m)) NewSimpleEmbedder "I like Go, and I like Python"
  = SimpleEmbedder_Embed_in plain_table map_to_list NewSimpleEmbedder
      "I like Go, and I like Python".
Proof.
  apply (proj1 (embedding_deterministic plain_table)).
  - intros m. symmetry. apply Permutation_rev.
  - intros m. reflexivity.
Defined.

End Claims.

(* ================================================================= *)
(** * Further properties of the package                               *)
(* ================================================================= *)

(** ** The table under [Store], [Delete] and [Search] *)

Section StoreInversion.
Context {F : Type} `{Float32 F}.
Variable T : GoStr.CaseTable.
Import GoStr Regexp Canonical UuidFacts.

Implicit Types s : @MemoryStore F.

(** What a call of [Store] went through, read off its result. *)
Lemma Store_inv s newID now text importance category sessionKey r s' :
  Store s newID now text importance category sessionKey = (r, s') ->
  (exists err, r = Err err /\ s' = s)
  \/ (exists vector,
        Embed (embedder s) text = Ok vector
        /\ forallb f_finite vector = true
        /\ existsb (fun x => String.eqb (row_id x) newID) (db s) = false
        /\ r = Ok {| ID := newID; Text := text; Vector := vector;
                     Importance := importance;
                     Category := if isValidCategory s category then category
                                 else "other"%string;
                     SessionKey := sessionKey; CreatedAt := now |}
        /\ s' = with_db s (db s ++ [row_of_entry
                     {| ID := newID; Text := text; Vector := vector;
                        Importance := importance;
                        Category := if isValidCategory s category then category
                                    else "other"%string;
                        SessionKey := sessionKey; CreatedAt := now |}])).
Proof.
  unfold Store. destruct (Embed (embedder s) text) as [vector|err].
  - destruct (forallb f_finite vector) eqn:Hfin; cbn [negb].
    + destruct (existsb _ (db s)) eqn:Hex.
      * intros [= <- <-]. left. eauto.
      * intros [= <- <-]. right. exists vector. repeat split; assumption.
    + intros [= <- <-]. left. eauto.
  - intros [= <- <-]. left. eauto.
Qed.

Lemma existsb_id_false (rows : list (@Row F)) (id : string) :
  existsb (fun x => String.eqb (row_id x) id) rows = false <->
  Forall (fun x => row_id x <> id) rows.
Proof.
  induction rows as [|x rows IH]; cbn [existsb].
  - split; [constructor | reflexivity].
  - rewrite orb_false_iff, IH, String.eqb_neq. split.
    + intros [? ?]. now constructor.
    + now inversion 1.
Qed.

Lemma Capture_inv s newID now text sessionKey r s' :
  Capture T s newID now text sessionKey = (r, s') ->
  (ShouldCapture text = false /\ r = Ok None /\ s' = s)
  \/ (ShouldCapture text = true
      /\ exists r0,
           Store s newID now text (capture_importance T text)
                 (DetectCategory T text) sessionKey = (r0, s')
           /\ r = match r0 with Ok entry => Ok (Some entry) | Err err => Err err end).
Proof.
  unfold Capture. destruct (ShouldCapture text); cbn [negb].
  - destruct (Store _ _ _ _ _ _ _) as [[entry|err] s1] eqn:Hs;
      intros [= <- <-]; right; (split; [reflexivity|]); eexists; eauto.
  - intros [= <- <-]. now left.
Qed.

Lemma Search_results_scored s query limit minScore queryVector results res :
  Embed (embedder s) query = Ok queryVector ->
  Search s query limit minScore = Ok results ->
  res ∈ results ->
  exists r v,
    r ∈ recent_window (db s) /\ row_vector r = Some v
    /\ res = {| Entry := entry_of_row r v;
                Score := cosineSimilarity queryVector v |}
    /\ f_geb (cosineSimilarity queryVector v) (effective_minScore s minScore) = true.
Proof.
  intros He Hs Hin.
  destruct (Search_ok _ _ _ _ _ _ He Hs) as [n ->].
  apply subseteq_take in Hin.
  rewrite sort_by_score_Permutation, score_rows_flat_map in Hin.
  apply list_elem_of_In, in_flat_map in Hin as (r & Hr & Hres).
  exists r. unfold scored in Hres.
  destruct (row_vector r) as [v|] eqn:Hv; [|destruct Hres].
  cbn zeta in Hres. destruct (f_geb _ _) eqn:Hge; [|destruct Hres].
  destruct Hres as [<- | []]. exists v.
  split; [now apply list_elem_of_In|]. repeat split; assumption.
Qed.

End StoreInversion.

Section StoreContract.
Context {F : Type} `{Float32 F}.
Variable T : GoStr.CaseTable.
Import GoStr Regexp Canonical UuidFacts Fixtures.

Implicit Types s : @MemoryStore F.

(** X1.  [Store] either fails, and then the store is exactly as it was
    whatever the cause (embedding, serialisation or a taken identifier),
    or appends one row: the entry it returns carries the identifier, text,
    importance, session key and time it was given and the vector the
    provider returned for the text; the rows already there are untouched,
    none of them had the new identifier, and [Count] grows by one. *)
Theorem Store_outcome s (newID : string) (now : Z) (text : string)
    (importance : F) (category sessionKey : string) :
  match Store s newID now text importance category sessionKey with
  | (Ok entry, s') =>
    ID entry = newID /\ Text entry = text /\ Importance entry = importance
    /\ SessionKey entry = sessionKey /\ CreatedAt entry = now
    /\ Embed (embedder s) text = Ok (Vector entry)
    /\ (Category entry = category \/ Category entry = "other"%string)
    /\ db s' = db s ++ [row_of_entry entry]
    /\ Count s' = (Count s + 1)%Z
    /\ embedder s' = embedder s /\ config s' = config s
    /\ categories s' = categories s
    /\ Forall (fun r => row_id r <> newID) (db s)
  | (Err _, s') => s' = s
  end.
Proof.
  destruct (Store s newID now text importance category sessionKey) as [r s'] eqn:Hs.
  apply Store_inv in Hs as [(err & -> & ->) | (vector & He & _ & Hid & -> & ->)];
    [reflexivity|].
  cbn [ID Text Importance SessionKey CreatedAt Vector Category db with_db
       embedder config categories].
  repeat split; try reflexivity; try assumption.
  - destruct (isValidCategory s category); auto.
  - unfold Count. cbn [db with_db]. rewrite length_app. cbn [length]. lia.
  - now apply existsb_id_false.
Qed.

End StoreContract.

Section TableInvariants.
Context {F : Type} `{Float32 F}.
Variable T : GoStr.CaseTable.
Import GoStr Regexp Canonical UuidFacts Fixtures.

Implicit Types s : @MemoryStore F.

Lemma NoDup_ids_filter (P : @Row F -> Prop) `{!forall x, Decision (P x)}
    (rows : list (@Row F)) :
  NoDup (map row_id rows) -> NoDup (map row_id (filter P rows)).
Proof.
  induction rows as [|x rows IH]; [intros; constructor|].
  cbn [map]. rewrite filter_cons. intros [Hx Hrows]%NoDup_cons.
  destruct (decide (P x)); [|now apply IH].
  cbn [map]. apply NoDup_cons. split; [|now apply IH].
  intros Hin. apply Hx.
  apply list_elem_of_In, in_map_iff in Hin as (y & Hy & Hin).
  apply list_elem_of_In, in_map_iff. exists y. split; [exact Hy|].
  apply list_elem_of_In. apply list_elem_of_In in Hin.
  now apply list_elem_of_filter in Hin as [_ Hin].
Qed.

Lemma NoDup_ids_snoc (rows : list (@Row F)) (r : @Row F) :
  NoDup (map row_id rows) -> Forall (fun x => row_id x <> row_id r) rows ->
  NoDup (map row_id (rows ++ [r])).
Proof.
  intros Hn Hfresh. rewrite map_app. apply NoDup_app. split; [exact Hn|].
  split; [|cbn [map]; apply NoDup_singleton].
  intros i Hi Hin. cbn [map] in Hin. apply list_elem_of_singleton in Hin as ->.
  apply list_elem_of_In, in_map_iff in Hi as (y & Hy & Hin).
  rewrite Forall_forall in Hfresh. apply (Hfresh y); [|exact Hy].
  now apply list_elem_of_In.
Qed.

Lemma apply_op_ids_unique s (o : Op F) :
  NoDup (map row_id (db s)) -> NoDup (map row_id (db (apply_op T s o))).
Proof.
  intros Hn.
  destruct o as [newID now text importance category sessionKey
                |newID now text sessionKey | id]; cbn [apply_op].
  - destruct (Store s newID now text importance category sessionKey) as [r s'] eqn:Hs.
    cbn [snd].
    apply Store_inv in Hs as [(err & -> & ->) | (vector & _ & _ & Hid & -> & ->)];
      [exact Hn|].
    cbn [db with_db]. apply NoDup_ids_snoc; [exact Hn|].
    cbn [row_of_entry row_id ID]. now apply existsb_id_false.
  - destruct (Capture T s newID now text sessionKey) as [r s'] eqn:Hc. cbn [snd].
    apply Capture_inv in Hc as [(_ & _ & ->) | (_ & r0 & Hs & _)]; [exact Hn|].
    apply Store_inv in Hs as [(err & -> & ->) | (vector & _ & _ & Hid & -> & ->)];
      [exact Hn|].
    cbn [db with_db]. apply NoDup_ids_snoc; [exact Hn|].
    cbn [row_of_entry row_id ID]. now apply existsb_id_false.
  - destruct (Delete_db T s id) as [-> | ->]; [exact Hn|].
    now apply NoDup_ids_filter.
Qed.

(** X2.  The identifier is a key of the table: from a table in which no
    two rows share an identifier, no sequence of [Store], [Capture] and
    [Delete] calls leads to one in which two rows do (a [Store] under an
    identifier that is taken fails). *)
Theorem run_ids_unique s (ops : list (Op F)) :
  NoDup (map row_id (db s)) -> NoDup (map row_id (db (run T ops s))).
Proof.
  unfold run. revert s. induction ops as [|o ops IH]; intros s Hn; [exact Hn|].
  cbn [fold_left]. apply IH. now apply apply_op_ids_unique.
Qed.

(** X3.  Storing under a well-formed identifier and then deleting that
    identifier gives back the store as it was before the two calls. *)
Theorem Store_then_Delete s s1 (newID : string) (now : Z) (text : string)
    (importance : F) (category sessionKey : string) (entry : @MemoryEntry F) :
  canonical_uuid newID = true ->
  Store s newID now text importance category sessionKey = (Ok entry, s1) ->
  Delete T s1 newID = (None, s).
Proof.
  intros Hc Hs.
  apply Store_inv in Hs as [(err & [=] & _) | (vector & _ & _ & Hid & _ & ->)].
  apply existsb_id_false in Hid.
  rewrite (Delete_present T) by
    (try exact Hc; cbn [db with_db]; apply Exists_app; right; now left).
  cbn [db with_db]. rewrite filter_app, (filter_all _ _ Hid).
  rewrite filter_cons, decide_False by (cbn [row_of_entry row_id ID]; tauto).
  rewrite filter_nil, app_nil_r.
  f_equal. destruct s; reflexivity.
Qed.

(** X4.  After a [Delete] that succeeded, a second [Delete] of the same
    identifier reports that the memory is not found and changes nothing. *)
Theorem Delete_twice s s1 (id : string) :
  Delete T s id = (None, s1) ->
  Delete T s1 id = (Some (Errorf "memory not found" id), s1).
Proof.
  intros Hd. destruct (canonical_uuid id) eqn:Hc.
  - assert (Hdb : db s1 = filter (fun r => row_id r <> id) (db s)).
    { unfold Delete in Hd. rewrite uuidRegex_canonical, Hc in Hd. cbn [negb] in Hd.
      destruct (_ =? _)%nat; [discriminate|]. now injection Hd as <-. }
    apply Delete_absent; [exact Hc|]. rewrite Hdb.
    apply Forall_forall. intros r [Hr _]%list_elem_of_filter. exact Hr.
  - rewrite (Delete_invalid T s id Hc) in Hd. discriminate.
Qed.

Lemma no_upper_neq (a b : string) :
  no_upper a = true -> no_upper b = false -> a <> b.
Proof. intros Ha Hb ->. congruence. Qed.

(** X5.  [Delete] checks the form of the identifier without regard to
    case but looks the row up by the identifier as written: when the
    identifiers in the table have no upper-case letter (as [uuid.New]
    writes them), an identifier with an upper-case letter is never
    deleted; well formed, it is reported as not found. *)
Theorem Delete_upper_case s (id : string) :
  Forall (fun r => no_upper (row_id r) = true) (db s) ->
  no_upper id = false ->
  Delete T s id
  = (Some (Errorf (if canonical_uuid id then "memory not found"
                   else "invalid memory ID format") id), s).
Proof.
  intros Hrows Hid. destruct (canonical_uuid id) eqn:Hc.
  - apply Delete_absent; [exact Hc|].
    eapply Forall_impl; [exact Hrows|]. intros r Hr. now apply no_upper_neq.
  - now apply Delete_invalid.
Qed.

Lemma effective_limit_idem s (limit : Z) :
  effective_limit s (effective_limit s limit) = effective_limit s limit.
Proof.
  unfold effective_limit. destruct (limit <=? 0)%Z eqn:Hl; [|now rewrite Hl].
  destruct (MaxResults (config s) <=? 0)%Z; reflexivity.
Qed.

Lemma effective_minScore_idem s (minScore : F) :
  effective_minScore s (effective_minScore s minScore) = effective_minScore s minScore.
Proof.
  unfold effective_minScore. destruct (f_leb minScore f_zero) eqn:Hl; [|now rewrite Hl].
  destruct (f_leb (MinScore (config s)) f_zero); reflexivity.
Qed.

(** X6.  The limit and the minimum score in force.  A limit that is zero
    or negative stands for the configured [MaxResults], a minimum score
    that is zero or negative for the configured [MinScore]: [Search] with
    the values in force gives the same answer.  Once the query is
    embedded, a limit in force that is negative (a negative [MaxResults]
    and no limit given) makes the slice expression [results[:limit]]
    panic whatever the table holds, and a limit in force of zero gives
    the empty list. *)
Theorem Search_limit_in_force s (query : string) (limit : Z) (minScore : F)
    (queryVector : list F) :
  Embed (embedder s) query = Ok queryVector ->
  Search s query limit minScore
  = Search s query (effective_limit s limit) (effective_minScore s minScore)
  /\ ((effective_limit s limit < 0)%Z ->
      Search s query limit minScore = Err (RuntimePanic "slice bounds out of range"))
  /\ (effective_limit s limit = 0%Z -> Search s query limit minScore = Ok []).
Proof.
  intros He. split.
  { unfold Search. now rewrite effective_limit_idem, effective_minScore_idem. }
  unfold Search. rewrite He. cbn zeta.
  set (sorted := sort_by_score _). split; intros Hl.
  - destruct (Z.gtb_spec (Z.of_nat (length sorted)) (effective_limit s limit)); [|lia].
    destruct (Z.ltb_spec (effective_limit s limit) 0); [reflexivity | lia].
  - rewrite Hl. destruct (Z.gtb_spec (Z.of_nat (length sorted)) 0).
    + reflexivity.
    + destruct sorted; [reflexivity | cbn [length] in *; lia].
Qed.

(** X7.  What [Search] returns is within its bounds: at most [limit]
    results (the limit in force) and at most 1000, each the decoded row
    of the table it stands for, with the cosine of the query vector and
    the row's vector as score, and that score not below the minimum in
    force. *)
Theorem Search_results_bounds s (query : string) (limit : Z) (minScore : F)
    (queryVector : list F) (results : list (@MemorySearchResult F)) :
  Embed (embedder s) query = Ok queryVector ->
  Search s query limit minScore = Ok results ->
  (Z.of_nat (length results) <= effective_limit s limit)%Z
  /\ length results <= 1000
  /\ length results <= length (db s)
  /\ Forall (fun res =>
       f_geb (Score res) (effective_minScore s minScore) = true
       /\ exists r v, r ∈ db s /\ row_vector r = Some v
            /\ Entry res = entry_of_row r v
            /\ Score res = cosineSimilarity queryVector v) results.
Proof.
  intros He Hs. split; [|split; [|split]].
  - unfold Search in Hs. rewrite He in Hs. cbn zeta in Hs.
    set (sorted := sort_by_score _) in *.
    destruct (Z.gtb_spec (Z.of_nat (length sorted)) (effective_limit s limit)).
    + destruct (Z.ltb_spec (effective_limit s limit) 0); [discriminate|].
      injection Hs as <-. rewrite length_take. lia.
    + injection Hs as <-. lia.
  - destruct (Search_ok _ _ _ _ _ _ He Hs) as [n ->].
    rewrite length_take, sort_by_score_length, score_rows_flat_map.
    assert (Hlen : forall rows : list (@Row F),
               length (flat_map (scored queryVector (effective_minScore s minScore)) rows)
               <= length rows).
    { induction rows as [|r rows IH]; [reflexivity|]. cbn [flat_map].
      rewrite length_app. unfold scored at 1.
      destruct (row_vector r); [|cbn [length]; lia].
      cbn zeta. destruct (f_geb _ _); cbn [length]; lia. }
    specialize (Hlen (recent_window (db s))). unfold recent_window in Hlen |- *.
    rewrite length_take in Hlen. lia.
  - destruct (Search_ok _ _ _ _ _ _ He Hs) as [n ->].
    rewrite length_take, sort_by_score_length, score_rows_flat_map.
    assert (Hlen : forall rows : list (@Row F),
               length (flat_map (scored queryVector (effective_minScore s minScore)) rows)
               <= length rows).
    { induction rows as [|r rows IH]; [reflexivity|]. cbn [flat_map].
      rewrite length_app. unfold scored at 1.
      destruct (row_vector r); [|cbn [length]; lia].
      cbn zeta. destruct (f_geb _ _); cbn [length]; lia. }
    specialize (Hlen (recent_window (db s))). unfold recent_window in Hlen.
    rewrite length_take in Hlen.
    pose proof (Permutation_length (order_by_created_desc_Permutation (db s))).
    unfold recent_window. lia.
  - apply Forall_forall. intros res Hin.
    destruct (Search_results_scored _ _ _ _ _ _ _ He Hs Hin)
      as (r & v & Hr & Hv & -> & Hge).
    cbn [Score Entry]. split; [exact Hge|].
    exists r, v. repeat split; try assumption. now apply recent_window_subset.
Qed.

End TableInvariants.

Section WindowFacts.
Context {F : Type} `{Float32 F}.







End WindowFacts.

Section WindowBound.
Context {F : Type} `{Float32 F}.
Implicit Types s : @MemoryStore F.


End WindowBound.

Section StoreExamples.
Import GoStr Regexp Canonical Fixtures MoreFixtures.

Lemma run_ids_unique_witness :
  NoDup (map row_id (db (run plain_table
    [OpStore id1 1 "I prefer tea" (f_lit 5 10) "preference" "s1";
     OpStore id1 2 "I like coffee" (f_lit 5 10) "preference" "s1";
     OpStore id2 3 "I like coffee" (f_lit 5 10) "preference" "s1";
     OpDelete id1]
    local_store))).
Proof. apply (run_ids_unique plain_table local_store). constructor. Defined.

Lemma Store_then_Delete_witness :
  exists entry s1,
    Store local_store id1 1 "I prefer tea" (f_lit 5 10) "preference" "s1"
    = (Ok entry, s1)
    /\ Delete plain_table s1 id1 = (None, local_store).
Proof.
  assert (Hfin : forallb f_finite
                   (fallbackEmbedding (F := spec_float) plain_table local_embedder
                      "I prefer tea")
                 = true) by (vm_compute; reflexivity).
  pose proof (Store_ok local_store id1 1 "I prefer tea" (f_lit 5 10)
                "preference" "s1" _ (local_store_embeds _) Hfin eq_refl) as Hs.
  cbn zeta in Hs. eexists _, _. split; [exact Hs|].
  apply (Store_then_Delete plain_table local_store _ id1 1 "I prefer tea"
           (f_lit 5 10) "preference" "s1" _ ltac:(vm_compute; reflexivity) Hs).
Defined.

Lemma Delete_twice_witness :
  exists s1,
    Delete plain_table one_memory id1 = (None, s1)
    /\ Delete plain_table s1 id1 = (Some (Errorf "memory not found" id1), s1).
Proof.
  pose proof (Delete_present plain_table one_memory id1
                ltac:(vm_compute; reflexivity)
                ltac:(vm_compute; left; reflexivity)) as Hd.
  eexists. split; [exact Hd|].
  exact (Delete_twice plain_table one_memory _ id1 Hd).
Defined.

Lemma Delete_upper_case_witness :
  canonical_uuid id_upper = true
  /\ Exists (fun r => row_id r = id_lower) (db lettered_memory)
  /\ Delete plain_table lettered_memory id_upper
     = (Some (Errorf (if canonical_uuid id_upper then "memory not found"
                      else "invalid memory ID format") id_upper), lettered_memory).
Proof.
  split; [vm_compute; reflexivity|]. split; [vm_compute; left; reflexivity|].
  apply (Delete_upper_case plain_table lettered_memory id_upper).
  - vm_compute. repeat constructor.
  - vm_compute. reflexivity.
Defined.

Lemma Search_limit_in_force_witness :
  Search negative_store "I like python" 0 (f_lit 5 10)
  = Err (RuntimePanic "slice bounds out of range")
  /\ Search local_store "I like python" 0 (S754_zero false)
     = Search local_store "I like python" 5 (f_lit 5 10).
Proof.
  split.
  - refine (proj1 (proj2 (Search_limit_in_force negative_store "I like python" 0
                            (f_lit 5 10) _ _)) _).
    + apply (LocalEmbedder_Embed_fallback plain_table offline). vm_compute. discriminate.
    + vm_compute. reflexivity.
  - exact (proj1 (Search_limit_in_force local_store "I like python" 0
                    (S754_zero false) _ (local_store_embeds _))).
Defined.

Lemma Search_results_bounds_witness :
  exists results,
    Search tie_store "I like python code" 2 (f_lit 1 10) = Ok results
    /\ length results = 2
    /\ Forall (fun res => f_geb (Score res) (f_lit 1 10) = true) results.
Proof.
  assert (Hs : exists results,
             Search tie_store "I like python code" 2 (f_lit 1 10) = Ok results
             /\ length results = 2)
    by (vm_compute; eexists; split; reflexivity).
  destruct Hs as (results & Hs & Hlen). exists results.
  split; [exact Hs|]. split; [exact Hlen|].
  destruct (Search_results_bounds tie_store "I like python code" 2 (f_lit 1 10)
              _ results (local_store_embeds _) Hs) as (_ & _ & _ & Hall).
  eapply Forall_impl; [exact Hall|]. intros res [Hge _]. exact Hge.
Defined.


End StoreExamples.

(** ** Vectors in exact arithmetic *)

Module ExactCosine.
Import RealArith RealFacts ExactVectors.
Local Open Scope R_scope.











End ExactCosine.

Section ExactCosineProperties.
Import RealArith RealFacts ExactVectors ExactCosine.
Local Open Scope R_scope.





End ExactCosineProperties.

Section RoundTripExact.
Import RealArith RealFacts ExactVectors ExactCosine Fixtures.
Local Open Scope R_scope.






End RoundTripExact.

Section ExactExamples.
Import RealArith RealFacts ExactVectors ExactCosine Fixtures.
Local Open Scope R_scope.








End ExactExamples.

(** ** The embeddings computed in the process *)

Section ZeroNorm.
Context {F : Type} `{Float32 F}.
Implicit Types s : @MemoryStore F.

Lemma cosine_sums_norms_acc (a b : list F) (d na nb : F) :
  length a = length b ->
  let r := fold_left
    (fun acc (xy : F * F) =>
       let '(dotProduct, normA, normB) := acc in
       (f_add dotProduct (f_mul xy.1 xy.2),
        f_add normA (f_mul xy.1 xy.1),
        f_add normB (f_mul xy.2 xy.2)))
    (combine a b) (d, na, nb) in
  r.1.2 = fold_left (fun sum x => f_add sum (f_mul x x)) a na
  /\ r.2 = fold_left (fun sum x => f_add sum (f_mul x x)) b nb.
Proof.
  revert b d na nb. induction a as [|x a IH]; intros [|y b] d na nb Hlen;
    try discriminate.
  - cbn. auto.
  - cbn [combine fold_left]. apply IH. cbn in Hlen. lia.
Qed.

(** The two norms [cosineSimilarity] accumulates are the sums of squares
    of its arguments. *)
Lemma cosine_sums_norms (a b : list F) :
  length a = length b ->
  (cosine_sums a b).1.2 = sum_squares a /\ (cosine_sums a b).2 = sum_squares b.
Proof. intros Hlen. exact (cosine_sums_norms_acc a b f_zero f_zero f_zero Hlen). Qed.

Lemma cosineSimilarity_zero_norm (q v : list F) :
  f_eqb (sum_squares v) f_zero = true ->
  cosineSimilarity q v = f_zero /\ cosineSimilarity v q = f_zero.
Proof.
  intros Hz. unfold cosineSimilarity. split.
  - destruct (length q =? length v) eqn:Hlen; cbn [negb]; [|reflexivity].
    apply Nat.eqb_eq in Hlen.
    destruct (cosine_sums_norms q v Hlen) as [_ Hb].
    destruct (cosine_sums q v) as [[d na] nb]. cbn [snd] in Hb. subst nb.
    now rewrite Hz, orb_true_r.
  - destruct (length v =? length q) eqn:Hlen; cbn [negb]; [|reflexivity].
    apply Nat.eqb_eq in Hlen.
    destruct (cosine_sums_norms v q Hlen) as [Ha _].
    destruct (cosine_sums v q) as [[d na] nb]. cbn [fst snd] in Ha. subst na.
    now rewrite Hz.
Qed.

(** X15.  A vector whose sum of squares computes to zero has cosine
    similarity 0 with every vector.  So when the minimum score in force
    is positive, [Search] returns no memory stored under such a vector,
    and a query that embeds to such a vector finds nothing. *)
Theorem zero_norm_never_found :
  (forall q v : list F,
      f_eqb (sum_squares v) f_zero = true ->
      cosineSimilarity q v = f_zero /\ cosineSimilarity v q = f_zero)
  /\ (forall s query limit minScore queryVector results,
        Embed (embedder s) query = Ok queryVector ->
        f_leb (effective_minScore s minScore) f_zero = false ->
        Search s query limit minScore = Ok results ->
        Forall (fun res =>
                  f_eqb (sum_squares (Vector (Entry res))) f_zero = false) results
        /\ (f_eqb (sum_squares queryVector) f_zero = true -> results = [])).
Proof.
  split; [exact cosineSimilarity_zero_norm|].
  intros s query limit minScore queryVector results He Hmin Hs.
  assert (Hno : forall res, res ∈ results ->
            f_eqb (sum_squares (Vector (Entry res))) f_zero = false
            /\ f_eqb (sum_squares queryVector) f_zero = false).
  { intros res Hin.
    destruct (Search_results_scored _ _ _ _ _ _ _ He Hs Hin)
      as (r & v & _ & _ & -> & Hge).
    cbn [Entry entry_of_row Vector]. unfold f_geb in Hge.
    split.
    - destruct (f_eqb (sum_squares v) f_zero) eqn:Hz; [|reflexivity].
      rewrite (proj1 (cosineSimilarity_zero_norm queryVector v Hz)) in Hge.
      congruence.
    - destruct (f_eqb (sum_squares queryVector) f_zero) eqn:Hz; [|reflexivity].
      rewrite (proj2 (cosineSimilarity_zero_norm v queryVector Hz)) in Hge.
      congruence. }
  split.
  - apply Forall_forall. intros res Hin. now apply Hno.
  - intros Hz. destruct results as [|res results]; [reflexivity|].
    destruct (Hno res) as [_ Hq]; [now left | congruence].
Qed.

End ZeroNorm.

Module B32Zero.
Import GoStr.

Lemma sum_squares_zero_acc (n : nat) :
  fold_left (fun sum x => f_add sum (f_mul x x))
            (replicate n (S754_zero false)) (S754_zero false)
  = S754_zero false.
Proof. induction n as [|n IH]; [reflexivity | exact IH]. Qed.

Lemma sum_squares_zero (n : nat) :
  sum_squares (replicate n (S754_zero false)) = S754_zero false.
Proof. exact (sum_squares_zero_acc n). Qed.

Lemma normalizeVector_zero (n : nat) :
  normalizeVector (replicate n (S754_zero false)) = replicate n (S754_zero false).
Proof. unfold normalizeVector. now rewrite sum_squares_zero. Qed.

End B32Zero.

Module LowerFacts.
Import GoStr GoStrFacts.
Local Open Scope Z_scope.

Lemma asciiLower_range (b : Z) : 0 <= b < 256 -> 0 <= asciiLower b < 256.
Proof.
  unfold asciiLower, between. intros Hb.
  destruct (Z.leb_spec 65 b), (Z.leb_spec b 90); cbn [andb]; lia.
Qed.

(** On ASCII text [strings.ToLower] works byte by byte. *)
Lemma ToLower_ascii (T : CaseTable) (text : string) :
  is_ascii text -> bytes (ToLower T text) = map asciiLower (bytes text).
Proof.
  intros Ha. unfold ToLower, ToLower_bytes.
  assert (Hall : forallb (fun c => c <? 128) (bytes text) = true).
  { apply forallb_forall. intros c Hc. apply Z.ltb_lt.
    unfold is_ascii in Ha. rewrite Forall_forall in Ha.
    now apply Ha, list_elem_of_In. }
  rewrite Hall. apply bytes_of_bytes.
  apply Forall_forall. intros c Hc.
  apply list_elem_of_In, in_map_iff in Hc as (b & <- & Hb).
  apply asciiLower_range.
  pose proof (bytes_range text) as Hr. rewrite Forall_forall in Hr.
  now apply Hr, list_elem_of_In.
Qed.

Lemma ToLower_same_letters (T : CaseTable) (t1 t2 : string) :
  is_ascii t1 -> is_ascii t2 -> same_letters t1 t2 -> ToLower T t1 = ToLower T t2.
Proof.
  intros H1 H2 Hs. unfold ToLower, ToLower_bytes.
  assert (Hall : forall t, is_ascii t -> forallb (fun c => c <? 128) (bytes t) = true).
  { intros t Ha. apply forallb_forall. intros c Hc. apply Z.ltb_lt.
    unfold is_ascii in Ha. rewrite Forall_forall in Ha.
    now apply Ha, list_elem_of_In. }
  rewrite (Hall t1 H1), (Hall t2 H2). now rewrite Hs.
Qed.

Lemma ToLower_ascii_length (T : CaseTable) (text : string) :
  is_ascii text -> String.length (ToLower T text) = String.length text.
Proof.
  intros Ha. rewrite <- !length_bytes, (ToLower_ascii T text Ha).
  apply length_map.
Qed.

End LowerFacts.

Section EmbedderProperties.
Context {F : Type} `{Float32 F}.
Variable T : GoStr.CaseTable.
Import GoStr GoStrFacts LowerFacts.
Local Open Scope Z_scope.

Lemma fallback_raw_length (e : LocalEmbedder) (ngrams : list string) (vector : list F) :
  length (fold_left
            (fun vector ngram =>
               let hash := hashString ngram in
               let idx := Z.to_nat (hash mod le_dims e) in
               alter (fun x => f_add x f_one) idx vector)
            ngrams vector)
  = length vector.
Proof.
  revert vector. induction ngrams as [|g ngrams IH]; intros vector; [reflexivity|].
  cbn [fold_left]. rewrite IH. apply length_alter.
Qed.

Lemma normalizeVector_length (v : list F) : length (normalizeVector v) = length v.
Proof.
  unfold normalizeVector. destruct (f_eqb _ _); [reflexivity | apply length_map].
Qed.

Lemma fill_vector_length (e : SimpleEmbedder) (nwords : nat)
    (entries : list (string * nat)) (vector : list F) :
  length (fill_vector e nwords entries vector) = length vector.
Proof.
  unfold fill_vector. revert vector.
  induction entries as [|wc entries IH]; intros vector; [reflexivity|].
  cbn [fold_left]. rewrite IH.
  destruct (se_vocab e !! wc.1); [apply length_insert | reflexivity].
Qed.

(** X16.  The local provider without a script, its dimension positive,
    and the vocabulary-bounded provider return vectors of exactly
    [Dimensions()] components (384 or 768, and 216); the remote provider returns a vector as long as the
    embedding in the response, whatever its [Dimensions()] says. *)
Theorem Embed_dimensions :
  (forall (env : Env F) (e : LocalEmbedder) text v,
      0 < le_dims e -> no_script env e ->
      Embed (Local_provider T env e) text = Ok v ->
      Z.of_nat (length v) = Dimensions (Local_provider T env e))
  /\ (forall order text v,
        Embed (Simple_provider_in T order NewSimpleEmbedder) text = Ok v ->
        Z.of_nat (length v) = Dimensions (Simple_provider_in (F := F) T order NewSimpleEmbedder)
        /\ length v = 216%nat)
  /\ (forall (env : Env F) (e : OpenAIEmbedder) text v,
        Embed (OpenAI_provider env e) text = Ok v ->
        exists raw rest,
          openai_embeddings env (oa_apiKey e) (oa_model e) text = Ok (raw :: rest)
          /\ length v = length raw).
Proof.
  split; [|split].
  - intros env e text v Hd Hn. cbn [Embed Local_provider Dimensions].
    rewrite (LocalEmbedder_Embed_fallback T env e text Hn). intros [= <-].
    unfold fallbackEmbedding.
    rewrite normalizeVector_length, fallback_raw_length, length_replicate. lia.
  - intros order text v. cbn [Embed Simple_provider_in Dimensions].
    unfold SimpleEmbedder_Embed_in. intros [= <-].
    rewrite normalizeVector_length, fill_vector_length.
    split; reflexivity.
  - intros env e text v. cbn [Embed OpenAI_provider]. unfold OpenAIEmbedder_Embed.
    destruct (openai_embeddings env _ _ text) as [[|raw rest]|err]; try discriminate.
    intros [= <-]. exists raw, rest. split; [reflexivity|].
    apply normalizeVector_length.
Qed.

(** X17.  The embeddings computed in the process and the category do not
    see the case of ASCII letters: two ASCII texts that differ in case
    only get the same hash-fallback vector, the same vocabulary vector
    and the same category. *)
Theorem embedding_ignores_case (t1 t2 : string) (e : LocalEmbedder)
    (order : gmap string nat -> list (string * nat)) (se : SimpleEmbedder) :
  is_ascii t1 -> is_ascii t2 -> same_letters t1 t2 ->
  fallbackEmbedding (F := F) T e t1 = fallbackEmbedding T e t2
  /\ SimpleEmbedder_Embed_in (F := F) T order se t1 = SimpleEmbedder_Embed_in T order se t2
  /\ DetectCategory T t1 = DetectCategory T t2.
Proof.
  intros H1 H2 Hs. pose proof (ToLower_same_letters T t1 t2 H1 H2 Hs) as Hl.
  unfold fallbackEmbedding, extractNgrams, SimpleEmbedder_Embed_in, DetectCategory.
  now rewrite Hl.
Qed.

End EmbedderProperties.

Section HashProperties.
Import GoStr.
Local Open Scope Z_scope.

Lemma hash_step (h c : Z) :
  wrap64 (wrap64 (wrap64 (Z.shiftl (h mod 2 ^ 64) 5) + h mod 2 ^ 64) + wrap64 c)
  = (h * 33 + c) mod 2 ^ 64.
Proof.
  unfold wrap64. rewrite Z.shiftl_mul_pow2 by lia.
  change (2 ^ 5) with 32. set (M := 2 ^ 64).
  assert (HM : M <> 0) by (unfold M; lia).
  rewrite Z.add_mod_idemp_r, Z.add_mod_idemp_l by exact HM.
  rewrite <- Z.add_assoc, Z.add_mod_idemp_l by exact HM.
  replace (h mod M * 32 + (h mod M + c)) with (h mod M * 33 + c) by lia.
  rewrite <- Z.add_mod_idemp_l, Z.mul_mod_idemp_l, Z.add_mod_idemp_l by exact HM.
  reflexivity.
Qed.

(** X18.  [hashString] is the hash of Bernstein over the runes of the
    string, [h * 33 + c] from 5381, reduced modulo 2^64: the wrap-around
    of the intermediate [uint64] results changes nothing else.  The index
    derived from it is within the vector. *)
Theorem hashString_closed (s : string) :
  hashString s = hash33 (runes s) mod 2 ^ 64
  /\ forall dims, 0 < dims ->
       (Z.to_nat (hashString s mod dims) < Z.to_nat dims)%nat.
Proof.
  assert (Hfold : forall rs h,
    fold_left
      (fun hash c => wrap64 (wrap64 (wrap64 (Z.shiftl hash 5) + hash) + wrap64 c))
      rs (h mod 2 ^ 64)
    = fold_left (fun h c => h * 33 + c) rs h mod 2 ^ 64).
  { induction rs as [|c rs IH]; intros h; cbn [fold_left]; [reflexivity|].
    rewrite hash_step. apply IH. }
  split.
  - unfold hashString, hash33. rewrite <- Hfold. reflexivity.
  - intros dims Hd. pose proof (Z.mod_pos_bound (hashString s) dims Hd). lia.
Qed.

End HashProperties.

Section VocabularyFacts.
Context {F : Type} `{Float32 F}.
Import GoStr.

(** Every key of [wordCount] is a word of the text, trimmed. *)
Lemma count_words_keys (words : list string) (w : string) (n : nat) :
  count_words words !! w = Some n ->
  exists w0, In w0 words /\ w = trim_non_letters w0.
Proof.
  unfold count_words.
  assert (Hacc : forall (acc : gmap string nat),
    (forall w n, acc !! w = Some n -> exists w0, In w0 words /\ w = trim_non_letters w0) ->
    forall ws, incl ws words ->
    forall w n,
      fold_left
        (fun wordCount word =>
           let word := trim_non_letters word in
           if String.eqb word "" then wordCount
           else <[word := S (default 0%nat (wordCount !! word))]> wordCount)
        ws acc !! w = Some n ->
      exists w0, In w0 words /\ w = trim_non_letters w0).
  { intros acc Hinv ws. revert acc Hinv.
    induction ws as [|x ws IH]; intros acc Hinv Hincl w' n'; cbn [fold_left].
    - apply Hinv.
    - apply IH; [|intros y Hy; apply Hincl; now right].
      intros w1 n1. cbn zeta. destruct (String.eqb _ _); [apply Hinv|].
      destruct (decide (w1 = trim_non_letters x)) as [->|Hne].
      + intros _. exists x. split; [apply Hincl; now left | reflexivity].
      + rewrite lookup_insert_ne by congruence. apply Hinv. }
  apply (Hacc ∅); [intros w1 n1; rewrite lookup_empty; discriminate | apply incl_refl].
Qed.

(** Entries whose words are outside the vocabulary leave the vector as
    it is. *)
Lemma fill_vector_outside (e : SimpleEmbedder) (nwords : nat)
    (entries : list (string * nat)) (vector : list F) :
  Forall (fun wc => se_vocab e !! wc.1 = None) entries ->
  fill_vector e nwords entries vector = vector.
Proof.
  unfold fill_vector. induction 1 as [|wc entries Hwc _ IH]; cbn [fold_left];
    [reflexivity|].
  now rewrite Hwc.
Qed.

(** A position that no word of the vocabulary is mapped to keeps its
    value. *)
Lemma fill_vector_untouched (e : SimpleEmbedder) (nwords : nat)
    (entries : list (string * nat)) (vector : list F) (i : nat) :
  (forall w, se_vocab e !! w <> Some i) ->
  fill_vector e nwords entries vector !! i = vector !! i.
Proof.
  intros Hfree. unfold fill_vector. revert vector.
  induction entries as [|wc entries IH]; intros vector; cbn [fold_left]; [reflexivity|].
  rewrite IH. destruct (se_vocab e !! wc.1) as [idx|] eqn:Hidx; [|reflexivity].
  apply list_lookup_insert_ne. intros ->. now apply (Hfree wc.1).
Qed.

End VocabularyFacts.

Section ZeroVectors.
Variable T : GoStr.CaseTable.
Import GoStr GoStrFacts LowerFacts B32Zero.

(** X19.  Under the hash fallback, in binary32, a text whose lower-cased
    form has fewer than three bytes (so every ASCII text of fewer than
    three bytes, the empty text included) has no 3-gram and is embedded
    as the zero vector. *)
Theorem fallbackEmbedding_short_text (e : LocalEmbedder) (text : string) :
  (0 <= le_dims e)%Z ->
  (String.length (ToLower T text) < 3
   \/ (is_ascii text /\ String.length text < 3)) ->
  fallbackEmbedding (F := spec_float) T e text
  = replicate (Z.to_nat (le_dims e)) (S754_zero false).
Proof.
  intros _ Hlen.
  assert (Hshort : String.length (ToLower T text) < 3).
  { destruct Hlen as [Hl | [Ha Hl]]; [exact Hl|].
    now rewrite (ToLower_ascii_length T text Ha). }
  unfold fallbackEmbedding, extractNgrams.
  rewrite length_bytes.
  replace (String.length (ToLower T text) + 1 - 3) with 0 by lia.
  cbn [seq map fold_left]. apply normalizeVector_zero.
Qed.

(** X20.  Under the vocabulary-bounded provider, in binary32, a text
    none of whose words (lower-cased, trimmed to letters) is in the
    vocabulary is embedded as the zero vector of 216 components. *)
Theorem SimpleEmbedder_no_known_word (text : string) :
  Forall (fun w => se_vocab NewSimpleEmbedder !! trim_non_letters w = None)
         (Fields (ToLower T text)) ->
  SimpleEmbedder_Embed (F := spec_float) T NewSimpleEmbedder text
  = Ok (replicate 216 (S754_zero false)).
Proof.
  intros Hwords. unfold SimpleEmbedder_Embed, SimpleEmbedder_Embed_in.
  rewrite fill_vector_outside.
  - change (Z.to_nat (se_dims NewSimpleEmbedder)) with 216.
    change (@f_zero spec_float b32) with (S754_zero false).
    now rewrite normalizeVector_zero.
  - apply Forall_forall. intros [w n] Hin. cbn [fst].
    apply elem_of_map_to_list in Hin.
    apply count_words_keys in Hin as (w0 & Hw0 & ->).
    rewrite Forall_forall in Hwords. now apply Hwords, list_elem_of_In.
Qed.

End ZeroVectors.

Section VocabularyGaps.
Variable T : GoStr.CaseTable.
Import GoStr.

Lemma vocab_free (i : nat) :
  In i [48; 53; 86; 92] -> forall w, se_vocab NewSimpleEmbedder !! w <> Some i.
Proof.
  intros Hi w Hw. pose proof (build_vocab_lookup commonWords w i Hw) as Hcw.
  assert (Hlast : forall w' j, commonWords !! i = Some w' ->
            se_vocab NewSimpleEmbedder !! w' = Some j -> j <> i).
  { intros w' j Hw' Hj. cbn [In] in Hi.
    destruct Hi as [<-|[<-|[<-|[<-|[]]]]];
      vm_compute in Hw'; injection Hw' as <-; vm_compute in Hj;
      injection Hj as <-; discriminate. }
  exact (Hlast w i Hcw Hw eq_refl).
Qed.

(** X21.  The vocabulary list names four words twice ("go", "like",
    "work", "want"), and a word is mapped to its last position: the
    vocabulary has 212 words for 216 dimensions, and components 48, 53,
    86 and 92 of every embedding are zero (before normalisation in any
    arithmetic, and in the result in exact arithmetic). *)
Theorem SimpleEmbedder_unused_components :
  size (se_vocab NewSimpleEmbedder) = 212
  /\ se_dims NewSimpleEmbedder = 216%Z
  /\ (forall w i, se_vocab NewSimpleEmbedder !! w = Some i ->
        commonWords !! i = Some w /\ ~ In i [48; 53; 86; 92])
  /\ (forall (F : Type) `(Float32 F) nwords entries i,
        In i [48; 53; 86; 92] ->
        fill_vector NewSimpleEmbedder nwords entries
          (replicate (Z.to_nat (se_dims NewSimpleEmbedder)) (f_zero (F := F))) !! i
        = Some f_zero)
  /\ (forall order text (v : list R) i,
        In i [48; 53; 86; 92] ->
        SimpleEmbedder_Embed_in T order NewSimpleEmbedder text = Ok v ->
        v !! i = Some 0%R).
Proof.
  assert (Hraw : forall (F : Type) `(Float32 F) nwords entries i,
        In i [48; 53; 86; 92] ->
        fill_vector NewSimpleEmbedder nwords entries
          (replicate (Z.to_nat (se_dims NewSimpleEmbedder)) (f_zero (F := F))) !! i
        = Some f_zero).
  { intros F HF nwords entries i Hi.
    rewrite fill_vector_untouched by now apply vocab_free.
    apply lookup_replicate_2.
    change (Z.to_nat (se_dims NewSimpleEmbedder)) with 216.
    cbn [In] in Hi. destruct Hi as [<-|[<-|[<-|[<-|[]]]]]; lia. }
  split; [vm_compute; reflexivity|]. split; [reflexivity|]. split; [|split].
  - intros w i Hw. split; [now apply build_vocab_lookup|].
    intros Hi. now apply (vocab_free i Hi w).
  - exact Hraw.
  - intros order text v i Hi. unfold SimpleEmbedder_Embed_in. intros [= <-].
    unfold normalizeVector. destruct (f_eqb _ _).
    + now apply Hraw.
    + rewrite list_lookup_fmap, (Hraw R Rexact) by exact Hi.
      cbn [fmap option_fmap option_map f_div Rexact].
      change (@f_zero R Rexact) with 0%R. f_equal. unfold Rdiv. apply Rmult_0_l.
Qed.

End VocabularyGaps.

Section EmbedderExamples.
Import GoStr Regexp Fixtures MoreFixtures.

Lemma zero_norm_never_found_witness :
  exists results,
    Search one_memory "ok" 5 (f_lit 5 10) = Ok results /\ results = [].
Proof.
  assert (Hs : exists results, Search one_memory "ok" 5 (f_lit 5 10) = Ok results)
    by (vm_compute; eexists; reflexivity).
  destruct Hs as (results & Hs). exists results. split; [exact Hs|].
  refine (proj2 (proj2 zero_norm_never_found one_memory "ok" 5%Z (f_lit 5 10)
                   _ results (local_store_embeds _) _ Hs) _);
    vm_compute; reflexivity.
Defined.

Lemma fallbackEmbedding_short_text_witness :
  fallbackEmbedding (F := spec_float) plain_table local_embedder "ok"
  = replicate (Z.to_nat (le_dims local_embedder)) (S754_zero false).
Proof.
  apply (fallbackEmbedding_short_text plain_table local_embedder "ok");
    [vm_compute; discriminate|].
  right. split; [unfold is_ascii; vm_compute; repeat constructor | vm_compute; lia].
Defined.

Lemma SimpleEmbedder_no_known_word_witness :
  SimpleEmbedder_Embed (F := spec_float) plain_table NewSimpleEmbedder "xyzzy plugh!"
  = Ok (replicate 216 (S754_zero false)).
Proof.
  apply (SimpleEmbedder_no_known_word plain_table "xyzzy plugh!").
  assert (Hf : Fields (ToLower plain_table "xyzzy plugh!") = ["xyzzy"; "plugh!"]%string)
    by (vm_compute; reflexivity).
  rewrite Hf. repeat constructor; vm_compute; reflexivity.
Defined.

Lemma Embed_dimensions_witness :
  exists v,
    Embed (embedder local_store) "I like python" = Ok v
    /\ Z.of_nat (length v) = 384%Z.
Proof.
  eexists. split; [apply local_store_embeds|].
  apply (proj1 (Embed_dimensions plain_table) offline local_embedder "I like python").
  - vm_compute. reflexivity.
  - vm_compute. discriminate.
  - apply local_store_embeds.
Defined.

Lemma embedding_ignores_case_witness :
  fallbackEmbedding (F := spec_float) plain_table local_embedder "I LIKE Python"
  = fallbackEmbedding plain_table local_embedder "i like python"
  /\ SimpleEmbedder_Embed_in (F := spec_float) plain_table map_to_list
       NewSimpleEmbedder "I LIKE Python"
     = SimpleEmbedder_Embed_in plain_table map_to_list NewSimpleEmbedder "i like python"
  /\ DetectCategory plain_table "I LIKE Python"
     = DetectCategory plain_table "i like python".
Proof.
  apply embedding_ignores_case.
  - unfold is_ascii. vm_compute. repeat constructor.
  - unfold is_ascii. vm_compute. repeat constructor.
  - vm_compute. reflexivity.
Defined.

Lemma hashString_closed_witness :
  (Z.to_nat (hashString "abc" mod 384) < Z.to_nat 384)%nat.
Proof. apply (proj2 (hashString_closed "abc")). lia. Defined.

Lemma SimpleEmbedder_unused_components_witness :
  exists v : list R,
    SimpleEmbedder_Embed_in plain_table map_to_list NewSimpleEmbedder "I like Go"
    = Ok v
    /\ v !! 53 = Some 0%R.
Proof.
  eexists. split; [reflexivity|].
  apply (proj2 (proj2 (proj2 (proj2 (SimpleEmbedder_unused_components plain_table))))
           map_to_list "I like Go").
  - cbn [In]. auto.
  - reflexivity.
Defined.

End EmbedderExamples.

Module NonNegative.
Import RealArith RealFacts ExactVectors ExactCosine.
Local Open Scope R_scope.









End NonNegative.

Section LocalScores.
Variable T : GoStr.CaseTable.
Import RealArith RealFacts ExactVectors ExactCosine NonNegative.
Local Open Scope R_scope.


End LocalScores.

Section LocalScoresExamples.
Import Fixtures.
Local Open Scope R_scope.


End LocalScoresExamples.

(** ** Construction, capture and the tools *)

Section Construction.
Context {F : Type} `{Float32 F}.
Variable T : GoStr.CaseTable.
Import GoStr.
Local Open Scope Z_scope.

Lemma NewOpenAIEmbedder_inv (env : Env F) (apiKey model : string) :
  let key := if String.eqb apiKey "" then getenv env "OPENAI_API_KEY" else apiKey in
  let name := if String.eqb model "" then "text-embedding-3-small"%string else model in
  NewOpenAIEmbedder env apiKey model
  = if String.eqb key "" then Err (ErrorText "OpenAI API key not provided")
    else Ok {| oa_apiKey := key; oa_model := name;
               oa_dims := if String.eqb name "text-embedding-3-large"
                          then 3072 else 1536 |}.
Proof.
  cbn zeta. unfold NewOpenAIEmbedder.
  destruct (String.eqb (if String.eqb apiKey "" then _ else _) ""); [reflexivity|].
  do 2 f_equal. destruct (String.eqb _ "text-embedding-3-large"); [reflexivity|].
  destruct (Contains _ "ada"); reflexivity.
Qed.

(** X23.  [NewLocalEmbedder] with a path: construction fails exactly
    when [os.Stat] reports that the file does not exist; any other
    answer, a failure to stat included, is accepted.  Without a path,
    the first of the two default candidates that exists is taken, and
    the only failure is that none was found.  The dimension is 768 when
    the path contains "large" anywhere, else 384. *)
Theorem NewLocalEmbedder_resolution (env : Env F) (modelPath : string) :
  let made p :=
    {| le_modelPath := p; le_dims := if Contains p "large" then 768 else 384 |} in
  let c1 := path_join env [user_home env; ".picoclaw"; "models"; "embeddings";
                           "all-MiniLM-L6-v2.gguf"]%string in
  let c2 := path_join env [user_home env; ".picoclaw"; "models"; "embeddings";
                           "model.gguf"]%string in
  (modelPath <> ""%string ->
   NewLocalEmbedder env modelPath
   = if stat_is (stat env modelPath) StatNotExist
     then Err (Errorf "model file not found" modelPath)
     else Ok (made modelPath))
  /\ (modelPath = ""%string -> c1 <> ""%string -> c2 <> ""%string ->
      NewLocalEmbedder env modelPath
      = if stat_is (stat env c1) StatOk then Ok (made c1)
        else if stat_is (stat env c2) StatOk then Ok (made c2)
        else Err (ErrorText "local model path not provided and no default found")).
Proof.
  cbn zeta. split.
  - intros Hp. apply String.eqb_neq in Hp. unfold NewLocalEmbedder.
    now rewrite Hp, Hp.
  - intros -> H1 H2. apply String.eqb_neq in H1, H2. unfold NewLocalEmbedder.
    cbn [String.eqb]. rewrite !filter_cons, filter_nil.
    destruct (stat env (path_join env [user_home env; _; _; _; "all-MiniLM-L6-v2.gguf"%string]))
      eqn:Hs1; cbn [stat_is].
    + rewrite decide_True by reflexivity. now rewrite H1, Hs1.
    + rewrite decide_False by discriminate.
      destruct (stat env (path_join env [user_home env; _; _; _; "model.gguf"%string]))
        eqn:Hs2; cbn [stat_is].
      * rewrite decide_True by reflexivity. now rewrite H2, Hs2.
      * rewrite decide_False by discriminate. reflexivity.
      * rewrite decide_False by discriminate. reflexivity.
    + rewrite decide_False by discriminate.
      destruct (stat env (path_join env [user_home env; _; _; _; "model.gguf"%string]))
        eqn:Hs2; cbn [stat_is].
      * rewrite decide_True by reflexivity. now rewrite H2, Hs2.
      * rewrite decide_False by discriminate. reflexivity.
      * rewrite decide_False by discriminate. reflexivity.
Qed.

(** X24.  [NewMemoryStore] (the directory and the database file
    permitting) knows the providers "openai" and "local" and no other:
    any other name fails with "unknown embedding provider", so the
    vocabulary-bounded provider cannot be configured.  A store that
    is made holds the rows of the file, the configuration and the five
    categories, and its provider reports 1536 or 3072 dimensions
    ("openai") or 384 or 768 ("local").  For "openai" a key in the
    configuration suffices, whatever the environment holds; without one
    the key is read from [OPENAI_API_KEY], so with [DefaultConfig] a
    store is made exactly when that variable is set. *)
Theorem NewMemoryStore_providers (env : Env F) (cfg : @StoreConfig F)
    (rows : list (@Row F)) :
  (EmbeddingProviderName cfg <> "openai"%string ->
   EmbeddingProviderName cfg <> "local"%string ->
   NewMemoryStore T env cfg rows
   = Err (Errorf "unknown embedding provider" (EmbeddingProviderName cfg)))
  /\ (forall s, NewMemoryStore T env cfg rows = Ok s ->
        db s = rows /\ config s = cfg /\ categories s = MemoryCategories
        /\ ((EmbeddingProviderName cfg = "openai"%string
             /\ (Dimensions (embedder s) = 1536 \/ Dimensions (embedder s) = 3072))
            \/ (EmbeddingProviderName cfg = "local"%string
                /\ (Dimensions (embedder s) = 384 \/ Dimensions (embedder s) = 768))))
  /\ (EmbeddingProviderName cfg = "openai"%string ->
      OpenAIAPIKey cfg <> ""%string ->
      exists s, NewMemoryStore T env cfg rows = Ok s)
  /\ (forall workspace,
        (exists s, NewMemoryStore T env (DefaultConfig env workspace) rows = Ok s)
        <-> getenv env "OPENAI_API_KEY" <> ""%string).
Proof.
  split; [|split; [|split]].
  - intros Ho Hl. apply String.eqb_neq in Ho, Hl.
    unfold NewMemoryStore, initEmbedder. now rewrite Ho, Hl.
  - intros s. unfold NewMemoryStore, initEmbedder.
    destruct (String.eqb (EmbeddingProviderName cfg) "openai") eqn:Ho.
    + rewrite NewOpenAIEmbedder_inv. cbn zeta.
      destruct (String.eqb (if String.eqb (OpenAIAPIKey cfg) "" then _ else _) "");
        [discriminate|].
      intros [= <-]. cbn [db config categories embedder Dimensions OpenAI_provider oa_dims].
      repeat split. left. split; [now apply String.eqb_eq|].
      destruct (String.eqb _ "text-embedding-3-large"); auto.
    + destruct (String.eqb (EmbeddingProviderName cfg) "local") eqn:Hl; [|discriminate].
      destruct (NewLocalEmbedder env (LocalModelPath cfg)) as [e|err] eqn:He;
        [|discriminate].
      intros [= <-]. cbn [db config categories embedder Dimensions Local_provider].
      repeat split. right. split; [now apply String.eqb_eq|].
      unfold NewLocalEmbedder in He.
      destruct (String.eqb (if String.eqb (LocalModelPath cfg) "" then _ else _) "");
        [discriminate|].
      destruct (stat_is _ StatNotExist); [discriminate|].
      injection He as <-. cbn [le_dims]. destruct (Contains _ "large"); auto.
  - intros Ho Hk. apply String.eqb_eq in Ho. apply String.eqb_neq in Hk.
    unfold NewMemoryStore, initEmbedder. rewrite Ho, NewOpenAIEmbedder_inv.
    cbn zeta. rewrite Hk, Hk. eauto.
  - intros workspace. unfold NewMemoryStore, initEmbedder.
    cbn [DefaultConfig EmbeddingProviderName OpenAIAPIKey EmbeddingModel String.eqb
         Ascii.eqb Bool.eqb andb].
    rewrite NewOpenAIEmbedder_inv. cbn zeta. cbn [String.eqb].
    destruct (String.eqb (getenv env "OPENAI_API_KEY") "") eqn:Hk.
    + apply String.eqb_eq in Hk. split; [intros [s [=]] | congruence].
    + apply String.eqb_neq in Hk. split; [intros _; exact Hk | eauto].
Qed.

End Construction.

Section CaptureAndTools.
Context {F : Type} `{Float32 F}.
Variable T : GoStr.CaseTable.
Import GoStr Regexp.
Local Open Scope Z_scope.

Implicit Types s : @MemoryStore F.

Lemma DetectCategory_valid (text : string) :
  In (DetectCategory T text) MemoryCategories.
Proof.
  unfold DetectCategory, MemoryCategories.
  repeat (destruct (MatchString _ _); [cbn [In]; tauto|]).
  cbn [In]. tauto.
Qed.

(** X25.  [Capture] does nothing, and reports no error, for a text that
    contains the recall marker, that is wrapped in tags, that has more
    than three emoji, or that no trigger pattern matches: the store is
    left as it is and no entry is returned. *)
Theorem Capture_rejections s (newID : string) (now : Z) (text sessionKey : string) :
  (Contains text "<relevant-memories>" = true
   \/ (HasPrefix text "<" = true /\ Contains text "</" = true)
   \/ (3 < emojiCount text)%nat
   \/ Forall (fun trigger => MatchString trigger text = false) triggers) ->
  ShouldCapture text = false
  /\ Capture T s newID now text sessionKey = (Ok None, s).
Proof.
  intros Hrej.
  assert (Hsc : ShouldCapture text = false).
  { unfold ShouldCapture.
    destruct (_ || _); [reflexivity|].
    destruct (Contains text "<relevant-memories>") eqn:Hm; [reflexivity|].
    destruct (HasPrefix text "<" && Contains text "</") eqn:Hw; [reflexivity|].
    destruct (Nat.ltb_spec 3 (emojiCount text)) as [He|He]; [reflexivity|].
    destruct Hrej as [Hr | [[Hp Hc] | [Hr | Hr]]].
    - discriminate.
    - rewrite Hp, Hc in Hw. discriminate.
    - lia.
    - apply not_true_iff_false. intros (t & Hin & Ht)%existsb_exists.
      rewrite Forall_forall in Hr. apply list_elem_of_In in Hin.
      rewrite (Hr t Hin) in Ht. discriminate. }
  split; [exact Hsc|]. unfold Capture. now rewrite Hsc.
Qed.

(** X26.  An entry [Capture] stores carries the category [DetectCategory]
    gives for the text, which is always one of the five categories, so
    the coercion of [Store] never applies to it; its text, session key,
    identifier and time are those of the call. *)
Theorem Capture_category s s' (newID : string) (now : Z) (text sessionKey : string)
    (entry : @MemoryEntry F) :
  categories s = MemoryCategories ->
  Capture T s newID now text sessionKey = (Ok (Some entry), s') ->
  Category entry = DetectCategory T text
  /\ In (Category entry) MemoryCategories
  /\ Text entry = text /\ SessionKey entry = sessionKey
  /\ ID entry = newID /\ CreatedAt entry = now
  /\ Count s' = Count s + 1.
Proof.
  intros Hcat Hc.
  apply Capture_inv in Hc as [(_ & [=] & _) | (_ & r0 & Hs & Hr)].
  destruct r0 as [e|err]; [|discriminate]. injection Hr as <-.
  apply Store_inv in Hs as [(err & [=] & _) | (v & _ & _ & _ & [= ->] & ->)].
  cbn [Category Text SessionKey ID CreatedAt].
  assert (Hv : isValidCategory s (DetectCategory T text) = true).
  { unfold isValidCategory. rewrite Hcat. apply existsb_exists.
    exists (DetectCategory T text). split; [apply DetectCategory_valid|].
    apply String.eqb_refl. }
  rewrite Hv. repeat split; try reflexivity.
  - apply DetectCategory_valid.
  - unfold Count. cbn [db with_db]. rewrite length_app. cbn [length]. lia.
Qed.


(** X28.  The capture tool without a text (missing, empty or no string)
    answers an error and leaves the store as it is.  With a text it is
    [Store] with the category of the parameters ("other" by default),
    the importance of the parameters as given, outside [0, 1] too (0.5
    by default), and no session key: a failure of [Store] is answered as
    an error with the store unchanged, a success with the identifier of
    the entry.  The tool does not ask [ShouldCapture]. *)
Theorem MemoryCaptureTool_Execute_outcomes s (newID : string) (now : Z)
    (params : gmap string Any) :
  ((forall t, params !! "text"%string = Some (AnyString t) -> t = ""%string) ->
   MemoryCaptureTool_Execute s newID now params
   = ({| ForLLM := ""; ForUser := "";
         ToolErr := Some (ErrorText "text parameter is required") |}, s))
  /\ (forall text, params !! "text"%string = Some (AnyString text) ->
      text <> ""%string ->
      let category := match params !! "category"%string with
                      | Some (AnyString c) => c
                      | _ => "other"%string
                      end in
      let importance := match params !! "importance"%string with
                        | Some (AnyNumber i) => f_of_float64 i
                        | _ => f_lit 5 10
                        end in
      match Store s newID now text importance category "" with
      | (Ok entry, s') =>
        MemoryCaptureTool_Execute s newID now params
        = ({| ForLLM := ("Memory stored successfully (ID: " ++ newID ++ ")")%string;
              ForUser := ""; ToolErr := None |}, s')
        /\ Importance entry = importance /\ Text entry = text
        /\ db s' = db s ++ [row_of_entry entry]
      | (Err err, s') =>
        MemoryCaptureTool_Execute s newID now params
        = ({| ForLLM := ""; ForUser := "";
              ToolErr := Some (Wrapf "failed to store memory" err) |}, s)
        /\ s' = s
      end).
Proof.
  split.
  - intros Ht. unfold MemoryCaptureTool_Execute.
    destruct (params !! "text"%string) as [[| | |t|]|]; try reflexivity.
    now rewrite (Ht t eq_refl).
  - intros text Ht Hne. cbn zeta. unfold MemoryCaptureTool_Execute. rewrite Ht.
    apply String.eqb_neq in Hne. rewrite Hne.
    destruct (Store s newID now text _ _ "") as [r s'] eqn:Hs.
    apply Store_inv in Hs as [(err & -> & ->) | (v & _ & _ & _ & -> & ->)].
    + split; reflexivity.
    + cbn [ID Importance Text db with_db]. repeat split; reflexivity.
Qed.

End CaptureAndTools.

Module WordFacts.
Import GoStr GoStrFacts Regexp Language MatcherFacts LowerFacts.
Local Open Scope Z_scope.

(** A rune of [w] bytes is followed by [w - 1] bytes above ASCII. *)
Lemma DecodeRune_width (b : Z) (t : list Z) (r : Z) (w : nat) :
  DecodeRune (b :: t) = (r, w) ->
  Forall (fun x => 128 <= x) (take (w - 1) t) /\ (w - 1 <= length t)%nat.
Proof.
  unfold DecodeRune, cont, between. intros Hd.
  repeat match type of Hd with
         | (if ?c then _ else _) = _ => destruct c eqn:?
         | match ?l with [] => _ | _ :: _ => _ end = _ => destruct l
         end;
    injection Hd as <- <-; cbn [Nat.sub take length];
    (split; [|lia]);
    repeat (constructor; try lia);
    repeat match goal with
           | H : _ && _ = true |- _ => apply andb_true_iff in H as [? ?]
           | H : (_ <=? _) = true |- _ => apply Z.leb_le in H
           end;
    repeat match goal with
           | H : context [if ?c then _ else _] |- _ => destruct c
           end; lia.
Qed.

Lemma runes_from_ascii_app (w rest : list Z) :
  Forall (fun b => b < 128) w ->
  runes_from 0 (w ++ rest) = w ++ runes_from 0 rest.
Proof.
  induction 1 as [|b w Hb _ IH]; [reflexivity|].
  cbn [app runes_from DecodeRune].
  destruct (Z.ltb_spec b 128); [|lia]. cbn [Nat.sub]. now rewrite IH.
Qed.

(** An ASCII word inside a text is a run of its runes. *)
Lemma runes_from_middle (pre w post : list Z) (skip : nat) :
  Forall (fun b => b < 128) w -> w <> [] ->
  Forall (fun x => 128 <= x) (take skip (pre ++ w ++ post)) ->
  exists pre' post', runes_from skip (pre ++ w ++ post) = pre' ++ w ++ post'.
Proof.
  intros Hw Hne. revert skip. induction pre as [|p pre IH]; intros skip Hskip.
  - cbn [app] in *. destruct w as [|b w]; [congruence|].
    destruct skip as [|k].
    + exists [], (runes_from 0 post). now rewrite runes_from_ascii_app.
    + cbn in Hskip. inversion Hskip; subst. inversion Hw; subst. lia.
  - cbn [app runes_from]. destruct skip as [|k].
    + destruct (DecodeRune (p :: pre ++ w ++ post)) as [r wd] eqn:Hd.
      apply DecodeRune_width in Hd as [Hhigh _].
      destruct (IH (wd - 1)%nat Hhigh) as (pre' & post' & ->).
      now exists (r :: pre'), post'.
    + cbn in Hskip. inversion Hskip; subst. now apply IH.
Qed.

Lemma asciiLower_fold_eq (c r : Z) : asciiLower r = c -> fold_eq c r = true.
Proof.
  unfold asciiLower, fold_eq, between. intros <-.
  destruct (Z.leb_spec 65 r), (Z.leb_spec r 90); cbn [andb]; lia.
Qed.

Lemma lang_chars_i (cs rs : list Z) :
  map asciiLower rs = cs -> lang (seq_of (map chr_i cs)) rs.
Proof.
  intros <-. induction rs as [|r rs IH]; cbn [map seq_of fold_right].
  - constructor.
  - apply (lang_cat _ _ [r] rs); [|exact IH].
    constructor. now apply asciiLower_fold_eq.
Qed.

Lemma lang_any_of (rs : list regex) (r : regex) (x : list Z) :
  In r rs -> lang r x -> lang (any_of rs) x.
Proof.
  intros Hin Hx. induction rs as [|a rs IH]; [destruct Hin|].
  cbn [any_of fold_right]. destruct Hin as [->|Hin].
  - now apply lang_alt_l.
  - apply lang_alt_r. now apply IH.
Qed.

Lemma asciiLower_ascii (b : Z) : asciiLower b < 128 -> b < 128.
Proof.
  unfold asciiLower, between.
  destruct (Z.leb_spec 65 b), (Z.leb_spec b 90); cbn [andb]; lia.
Qed.

(** A pattern that is a list of alternatives, one of them the ASCII
    word [w] under [(?i)], matches every text in which [w] occurs. *)
Lemma MatchString_word (rs : list regex) (w text : string) :
  In (lit_i w) rs -> is_ascii w -> w <> ""%string ->
  occurs_in_any_case w text ->
  MatchString (unanchored (any_of rs)) text = true.
Proof.
  intros Hin Ha Hne (pre & w' & post & Htext & Hw').
  unfold MatchString. cbn [anchored body unanchored].
  assert (Hasc : Forall (fun b => b < 128) w').
  { unfold is_ascii in Ha. rewrite <- Hw' in Ha.
    apply Forall_forall. intros b Hb. apply asciiLower_ascii.
    rewrite Forall_forall in Ha. apply Ha.
    apply list_elem_of_In, in_map. now apply list_elem_of_In. }
  assert (Hne' : w' <> []).
  { intros ->. cbn in Hw'. destruct w; [congruence | discriminate]. }
  unfold runes. rewrite Htext.
  destruct (runes_from_middle pre w' post 0 Hasc Hne') as (pre' & post' & ->);
    [constructor|].
  apply search_lang. exists pre', w', post'. split; [reflexivity|].
  apply (lang_any_of rs (lit_i w)); [exact Hin|].
  unfold lit_i, runes. rewrite runes_from_ascii by exact Ha.
  now apply lang_chars_i.
Qed.

Lemma asciiLower_idem (b : Z) : asciiLower (asciiLower b) = asciiLower b.
Proof.
  unfold asciiLower, between.
  destruct (Z.leb_spec 65 b), (Z.leb_spec b 90); cbn [andb];
    repeat match goal with
           | |- context [?x <=? ?y] => destruct (Z.leb_spec x y)
           end; cbn [andb]; lia.
Qed.

Lemma occurs_ToLower (T : CaseTable) (w text : string) :
  is_ascii text -> occurs_in_any_case w text ->
  occurs_in_any_case w (ToLower T text).
Proof.
  intros Ha (pre & w' & post & Htext & Hw').
  exists (map asciiLower pre), (map asciiLower w'), (map asciiLower post). split.
  - rewrite (ToLower_ascii T text Ha), Htext, !map_app. reflexivity.
  - rewrite <- Hw', map_map. apply map_ext. intros b. apply asciiLower_idem.
Qed.

End WordFacts.

Section TriggerWords.
Variable T : GoStr.CaseTable.
Import GoStr Regexp WordFacts.
Local Open Scope Z_scope.

Ltac in_list := cbn [In]; repeat (first [left; reflexivity | right]).
Ltac by_word :=
  eapply MatchString_word; [| | | eassumption]; [in_list | assumption | assumption].

(** X29.  A text that passes the four filters of [ShouldCapture] (10 to
    500 bytes, no recall marker, not wrapped in tags, at most three
    emoji) and in which one of the trigger words occurs, its letters in
    any case, is accepted. *)
Theorem ShouldCapture_trigger_word (text w : string) :
  In w trigger_words ->
  occurs_in_any_case w text ->
  (10 <= String.length text <= 500)%nat ->
  Contains text "<relevant-memories>" = false ->
  HasPrefix text "<" && Contains text "</" = false ->
  (emojiCount text <= 3)%nat ->
  ShouldCapture text = true.
Proof.
  intros Hw Hocc Hlen Hmark Hwrap Hemoji. unfold ShouldCapture.
  destruct (Z.ltb_spec (Z.of_nat (String.length text)) 10); [lia|].
  destruct (Z.gtb_spec (Z.of_nat (String.length text)) 500); [lia|].
  cbn [orb]. rewrite Hmark, Hwrap.
  destruct (Nat.ltb_spec 3 (emojiCount text)); [lia|].
  apply existsb_exists.
  assert (Hascii : forall x, In x trigger_words -> is_ascii x /\ x <> ""%string).
  { intros x Hx. unfold trigger_words in Hx. cbn [In] in Hx.
    repeat (destruct Hx as [<-|Hx];
            [split; [unfold is_ascii; vm_compute; repeat constructor | discriminate]|]).
    destruct Hx. }
  destruct (Hascii w Hw) as [Ha Hne].
  unfold trigger_words in Hw. cbn [In] in Hw.
  destruct Hw as [<-|[<-|[<-|Hw]]];
    [ exists (unanchored (any_of [lit_i "remember"; lit_i "zapamatuj"; lit_i "pamatuj"]));
      (split; [in_list | by_word]) .. |].
  destruct Hw as [<-|[<-|[<-|[<-|[<-|[<-|Hw]]]]]];
    [ exists (unanchored (any_of [lit_i "prefer"; lit_i "radši"; lit_i "like";
                                  lit_i "love"; lit_i "hate"; lit_i "want";
                                  lit_i "need"]));
      (split; [in_list | by_word]) .. |].
  destruct Hw as [<-|[<-|[<-|[<-|Hw]]]];
    [ exists (unanchored (any_of [lit_i "decided"; lit_i "rozhodli"; lit_i "will use";
                                  lit_i "budeme"]));
      (split; [in_list | by_word]) .. |].
  destruct Hw as [<-|[<-|[<-|[]]]];
    exists (unanchored (any_of [lit_i "always"; lit_i "never"; lit_i "important"]));
    (split; [in_list | by_word]).
Qed.

(** X30.  An ASCII text in which one of the words "prefer", "like",
    "love", "hate", "want" occurs, in any case, has the category
    [preference], whatever else it contains: the preference pattern is
    asked first. *)
Theorem DetectCategory_preference_word (text w : string) :
  In w preference_words -> is_ascii text -> occurs_in_any_case w text ->
  DetectCategory T text = "preference"%string.
Proof.
  intros Hw Ha Hocc. unfold DetectCategory.
  rewrite (MatchString_word _ w (ToLower T text)); [reflexivity | | | |].
  - unfold preference_words in Hw. cbn [In] in Hw.
    destruct Hw as [<-|[<-|[<-|[<-|[<-|[]]]]]]; in_list.
  - unfold preference_words in Hw. cbn [In] in Hw.
    destruct Hw as [<-|[<-|[<-|[<-|[<-|[]]]]]];
      unfold is_ascii; vm_compute; repeat constructor.
  - unfold preference_words in Hw. cbn [In] in Hw.
    destruct Hw as [<-|[<-|[<-|[<-|[<-|[]]]]]]; discriminate.
  - now apply occurs_ToLower.
Qed.

End TriggerWords.

Section ConstructionExamples.
Import GoStr Regexp Fixtures MoreFixtures.

Lemma NewLocalEmbedder_resolution_witness :
  NewLocalEmbedder (F := spec_float) offline model_file = Ok local_embedder
  /\ NewLocalEmbedder (F := spec_float) offline ""
     = Err (ErrorText "local model path not provided and no default found")
  /\ NewLocalEmbedder (F := spec_float) offline "/models/missing.gguf"
     = Err (Errorf "model file not found" "/models/missing.gguf").
Proof.
  split; [|split].
  - exact (proj1 (NewLocalEmbedder_resolution offline model_file)
             ltac:(discriminate)).
  - exact (proj2 (NewLocalEmbedder_resolution offline "") eq_refl
             ltac:(vm_compute; discriminate) ltac:(vm_compute; discriminate)).
  - exact (proj1 (NewLocalEmbedder_resolution offline "/models/missing.gguf")
             ltac:(discriminate)).
Defined.

Lemma NewMemoryStore_providers_witness :
  NewMemoryStore plain_table offline unknown_config []
  = Err (Errorf "unknown embedding provider" (EmbeddingProviderName unknown_config))
  /\ exists s, NewMemoryStore plain_table offline keyed_config [] = Ok s.
Proof.
  split.
  - apply (proj1 (NewMemoryStore_providers plain_table offline unknown_config []));
      discriminate.
  - apply (proj1 (proj2 (proj2
             (NewMemoryStore_providers plain_table offline keyed_config []))));
      [reflexivity | discriminate].
Defined.

End ConstructionExamples.

Section CaptureExamples.
Import GoStr Regexp Fixtures MoreFixtures.

Lemma Capture_rejections_witness :
  Capture plain_table local_store id1 1
    "<relevant-memories>I always prefer tea</relevant-memories>" "s1"
  = (Ok None, local_store).
Proof.
  apply (Capture_rejections plain_table local_store id1 1
           "<relevant-memories>I always prefer tea</relevant-memories>" "s1").
  left. vm_compute. reflexivity.
Defined.

Lemma Capture_category_witness :
  exists entry s',
    Capture plain_table local_store id1 1 "We decided to use the new plan" "s1"
    = (Ok (Some entry), s')
    /\ Category entry = "decision"%string.
Proof.
  assert (Hfin : forallb f_finite
                   (fallbackEmbedding (F := spec_float) plain_table local_embedder
                      "We decided to use the new plan")
                 = true) by (vm_compute; reflexivity).
  pose proof (Capture_ok plain_table local_store id1 1
                "We decided to use the new plan" "s1" _
                ltac:(vm_compute; reflexivity) (local_store_embeds _)
                Hfin eq_refl) as Hc.
  cbn zeta in Hc. eexists _, _. split; [exact Hc|].
  destruct (Capture_category plain_table local_store _ id1 1
              "We decided to use the new plan" "s1" _ eq_refl Hc) as (Hcat & _).
  rewrite Hcat. vm_compute. reflexivity.
Defined.


Lemma MemoryCaptureTool_Execute_outcomes_witness :
  MemoryCaptureTool_Execute local_store id1 1
    (<["text"%string := AnyString ""]> ∅)
  = ({| ForLLM := ""; ForUser := "";
        ToolErr := Some (ErrorText "text parameter is required") |}, local_store).
Proof.
  apply (proj1 (MemoryCaptureTool_Execute_outcomes local_store id1 1 _)).
  intros t Ht. rewrite lookup_insert_eq in Ht. now injection Ht as <-.
Defined.

Lemma ShouldCapture_trigger_word_witness :
  ShouldCapture "Please REMEMBER the milk" = true.
Proof.
  apply (ShouldCapture_trigger_word "Please REMEMBER the milk" "remember").
  - cbn [In trigger_words]. auto.
  - exists (bytes "Please "), (bytes "REMEMBER"), (bytes " the milk").
    split; vm_compute; reflexivity.
  - vm_compute. lia.
  - vm_compute. reflexivity.
  - vm_compute. reflexivity.
  - vm_compute. lia.
Defined.

Lemma DetectCategory_preference_word_witness :
  DetectCategory plain_table "We decided that I LOVE tea" = "preference"%string.
Proof.
  apply (DetectCategory_preference_word plain_table "We decided that I LOVE tea" "love").
  - cbn [In preference_words]. auto.
  - unfold is_ascii. vm_compute. repeat constructor.
  - exists (bytes "We decided that I "), (bytes "LOVE"), (bytes " tea").
    split; vm_compute; reflexivity.
Defined.

End CaptureExamples.
